(** * Path algebra of [theatre/shared/src/utils/addresses.ts]

    A shallow embedding of the path operations of the addressing module
    ([arePathsEqual], [doesPathStartWith], [commonRootOfPathsToProps],
    [getValueByPropPath], [encodePathToProp], [decodePathToProp]) and the
    properties of them that the specification states.

    Conventions of the embedding.
    - A path step is [string | number].  Number steps are array indices and
      integer keys; they are embedded as [Z].  IEEE-754 specifics of the
      JavaScript Number type (NaN, the sign of zero, fractions) are not part
      of this embedding.
    - A string is a [string] of 8-bit characters.
    - Reading a path at an index gives [Some] step, or [None] for the
      [undefined] of a read past its end; in a value tree [undefined] is the
      constructor [VUndefined].
    - A plain object is a finite map from its own property names to values
      ([gmap string value]) whose prototype is [Object.prototype]: a read of
      a name the object does not have itself gives the member of that name
      it inherits from [Object.prototype], if there is one. *)

From Stdlib Require Import ZArith String Ascii List Bool Lia.
From Stdlib Require Import DecimalString DecimalFacts DecimalPos DecimalN DecimalZ.
From stdpp Require Import base option list gmap strings fin_maps.

Local Open Scope string_scope.
Local Open Scope list_scope.

(** ** Paths *)

(** [type PathToProp = Array<string | number>] *)
Inductive step : Type :=
  | SStr (s : string)
  | SNum (n : Z).

Abbreviation PathToProp := (list step).

#[global] Instance step_eq_dec : EqDecision step.
Proof. solve_decision. Defined.

Definition step_to_sum (k : step) : string + Z :=
  match k with SStr s => inl s | SNum n => inr n end.

Definition step_of_sum (x : string + Z) : step :=
  match x with inl s => SStr s | inr n => SNum n end.

#[global] Instance step_countable : Countable step.
Proof.
  apply (inj_countable' step_to_sum step_of_sum).
  intros []; reflexivity.
Defined.

(** [typeof key] for a path step. *)
Definition typeof_step (key : step) : string :=
  match key with SStr _ => "string" | SNum _ => "number" end.

(** ** Strict equality

    [a === b] for operands that are a step or [undefined] (an array read
    past the end).  Operands of different types are never equal. *)
Definition step_strict_eq (a b : step) : bool :=
  match a, b with
  | SStr s, SStr t => String.eqb s t
  | SNum m, SNum n => Z.eqb m n
  | _, _ => false
  end.

Definition strict_eq (x y : option step) : bool :=
  match x, y with
  | Some a, Some b => step_strict_eq a b
  | None, None => true
  | _, _ => false
  end.

(** ** [Array.prototype.every], with the index passed to the callback *)
Fixpoint every_from {A : Type} (f : A -> nat -> bool) (i : nat) (l : list A) : bool :=
  match l with
  | [] => true
  | x :: l' => f x i && every_from f (S i) l'
  end.

Definition Array_every {A : Type} (f : A -> nat -> bool) (l : list A) : bool :=
  every_from f 0 l.

(** ** [doesPathStartWith]

    [return pathPrefix.every((pathPart, i) => pathPart === path[i])] *)
Definition doesPathStartWith (path pathPrefix : PathToProp) : bool :=
  Array_every (fun pathPart i => strict_eq (Some pathPart) (path !! i)) pathPrefix.

(** ** [arePathsEqual]

    The [for] loop, with [remaining] the number of iterations still to run
    ([pathToPropA.length - i]). *)
Fixpoint arePathsEqual_for (remaining i : nat) (pathToPropA pathToPropB : PathToProp) : bool :=
  match remaining with
  | O => true
  | S remaining' =>
      if negb (strict_eq (pathToPropA !! i) (pathToPropB !! i)) then false
      else arePathsEqual_for remaining' (S i) pathToPropA pathToPropB
  end.

Definition arePathsEqual (pathToPropA pathToPropB : PathToProp) : bool :=
  if negb (Nat.eqb (length pathToPropA) (length pathToPropB)) then false
  else arePathsEqual_for (length pathToPropA) 0 pathToPropA pathToPropB.

(** ** [commonRootOfPathsToProps]

    One turn of the [while (true)] loop on the accumulator
    [commonPathToProp]: [inr] is a [return], [inl] the accumulator after the
    [push]. *)
Definition commonRoot_body (pathsToProps : list PathToProp) (commonPathToProp : PathToProp)
  : PathToProp + PathToProp :=
  let i := length commonPathToProp in
  (* pathsToProps[0]?.[i] *)
  let candidatePathPart := (pathsToProps !! 0) ≫= (fun first => first !! i) in
  match candidatePathPart with
  | None => inr commonPathToProp
  | Some c =>
      if forallb (fun pathToProp => strict_eq (Some c) (pathToProp !! i)) pathsToProps
      then inl (commonPathToProp ++ [c])
      else inr commonPathToProp
  end.

(** The loop, bounded by [fuel] turns; [None] when the bound is reached
    before a [return]. *)
Fixpoint commonRoot_while (fuel : nat) (pathsToProps : list PathToProp)
    (commonPathToProp : PathToProp) : option PathToProp :=
  match fuel with
  | O => None
  | S fuel' =>
      match commonRoot_body pathsToProps commonPathToProp with
      | inr result => Some result
      | inl commonPathToProp' => commonRoot_while fuel' pathsToProps commonPathToProp'
      end
  end.

Definition commonRootOfPathsToProps (fuel : nat) (pathsToProps : list PathToProp)
  : option PathToProp :=
  commonRoot_while fuel pathsToProps [].

(** ** Serializable values *)

(** Modelled from the spec: the types [SerializableValue], [SerializableMap]
    and [$IntentionalAny] are imported from [@theatre/shared/utils/types]
    and are not among the sources.  The spec gives the values
    [getValueByPropPath] walks as trees of keyed maps with string keys,
    ordered sequences (arrays) and primitive leaves.  [VUndefined] is the
    value of a missing property and of an out-of-range array read; numbers
    are integers, as in steps.  Two more constructors stand for what a read
    on a plain object can give besides: [VFunction name], the built-in
    function object of that name, and [VObjectPrototype], the object
    [Object.prototype]. *)
#[warnings="-register-all"]
Inductive value : Type :=
  | VUndefined
  | VNull
  | VBool (b : bool)
  | VNum (n : Z)
  | VStr (s : string)
  | VArr (elements : list value)
  | VObj (properties : gmap string value)
  | VFunction (name : string)
  | VObjectPrototype.

(** [typeof v] *)
Definition typeof (v : value) : string :=
  match v with
  | VUndefined => "undefined"
  | VNull => "object"
  | VBool _ => "boolean"
  | VNum _ => "number"
  | VStr _ => "string"
  | VArr _ => "object"
  | VObj _ => "object"
  | VFunction _ => "function"
  | VObjectPrototype => "object"
  end.

(** [v === null] *)
Definition is_null (v : value) : bool :=
  match v with VNull => true | _ => false end.

(** [Array.isArray(v)] *)
Definition Array_isArray (v : value) : bool :=
  match v with VArr _ => true | _ => false end.

(** ** Completions: a normal result or a thrown exception

    [NotModelled] marks a read this embedding gives no result for (see
    [Get]); like an exception it ends the computation. *)
Inductive error : Type :=
  | TypeError.

Inductive completion (A : Type) : Type :=
  | Normal (a : A)
  | Throw (e : error)
  | NotModelled.
Arguments Normal {A} a.
Arguments Throw {A} e.
Arguments NotModelled {A}.

#[global] Instance completion_ret : MRet completion := fun A a => Normal a.
#[global] Instance completion_bind : MBind completion :=
  fun A B f c =>
    match c with
    | Normal a => f a
    | Throw e => Throw e
    | NotModelled => NotModelled
    end.

(** ** Number to string

    [Number::toString] on an integer: the decimal digits, most significant
    first, after a minus sign when negative (the form JavaScript gives every
    integer of magnitude below 10^21, array indices among them). *)
Definition Number_toString (n : Z) : string :=
  match n with
  | Z0 => "0"
  | Zpos p => NilEmpty.string_of_uint (Pos.to_uint p)
  | Zneg p => String "-" (NilEmpty.string_of_uint (Pos.to_uint p))
  end.

(** ** Property reads: [o[key]]

    The key is first turned into a property name ([ToPropertyKey]).  The
    read throws a [TypeError] on [undefined] and [null]; otherwise it gives
    the receiver's own property of that name, else the member of that name
    the receiver inherits along its prototype chain, else [undefined]. *)
Definition ToPropertyKey (key : step) : string :=
  match key with
  | SStr s => s
  | SNum n => Number_toString n
  end.

(** The array index a property name denotes: the name is the canonical
    decimal form of a natural number. *)
Definition array_index_of (name : string) : option nat :=
  match NilEmpty.uint_of_string name with
  | Some d =>
      let n := N.of_uint d in
      if String.eqb (Number_toString (Z.of_N n)) name then Some (N.to_nat n) else None
  | None => None
  end.

(** The own properties of a plain object, of an array (its elements and
    [length]) and of a string (its characters and [length]).  It is the
    first stage of a read: [Get] consults it for these receivers only, and
    goes on to the prototype chain when it finds nothing. *)
Definition GetOwnProperty (o : value) (name : string) : option value :=
  match o with
  | VObj properties => properties !! name
  | VArr elements =>
      if String.eqb name "length" then Some (VNum (Z.of_nat (length elements)))
      else array_index_of name ≫= (fun i => elements !! i)
  | VStr s =>
      if String.eqb name "length" then Some (VNum (Z.of_nat (String.length s)))
      else array_index_of name ≫= (fun i =>
             match String.get i s with
             | Some c => Some (VStr (String c EmptyString))
             | None => None
             end)
  | _ => None
  end.

(** The methods of [Object.prototype]. *)
Definition ObjectPrototype_methods : list string :=
  ["hasOwnProperty"; "isPrototypeOf"; "propertyIsEnumerable";
   "toLocaleString"; "toString"; "valueOf";
   "__defineGetter__"; "__defineSetter__"; "__lookupGetter__"; "__lookupSetter__"].

(** The members of [Object.prototype], read for a receiver whose prototype
    is [proto]: [constructor] is the function [Object], the methods are
    function objects, and the accessor [__proto__] gives the prototype of
    the receiver. *)
Definition ObjectPrototype_Get (proto : value) (name : string) : option value :=
  if String.eqb name "constructor" then Some (VFunction "Object")
  else if String.eqb name "__proto__" then Some proto
  else if existsb (String.eqb name) ObjectPrototype_methods then Some (VFunction name)
  else None.

(** The read.  The prototype of a plain object is [Object.prototype], whose
    own prototype is [null].  The prototypes of arrays, primitives and
    functions are not embedded: they have no member under the decimal name
    of a number, so a number key that is not an own property gives
    [undefined]; a string key that is not an own property is [NotModelled]. *)
Definition Get (o : value) (key : step) : completion value :=
  let name := ToPropertyKey key in
  match o with
  | VUndefined => Throw TypeError
  | VNull => Throw TypeError
  | VObj _ =>
      match GetOwnProperty o name with
      | Some v => Normal v
      | None => Normal (default VUndefined (ObjectPrototype_Get VObjectPrototype name))
      end
  | VObjectPrototype => Normal (default VUndefined (ObjectPrototype_Get VNull name))
  | VArr _ | VStr _ =>
      match GetOwnProperty o name, key with
      | Some v, _ => Normal v
      | None, SNum _ => Normal VUndefined
      | None, SStr _ => NotModelled
      end
  | VBool _ | VNum _ | VFunction _ =>
      match key with
      | SNum _ => Normal VUndefined
      | SStr _ => NotModelled
      end
  end.

(** ** [getValueByPropPath]

    The [while (p.length !== 0)] loop over the private copy [p] of the
    path: each turn shifts the first step off [p]. *)
Fixpoint getValueByPropPath_while (p : PathToProp) (cur : value) : completion value :=
  match p with
  | [] => Normal cur
  | key :: p' =>
      if negb (is_null cur) && String.eqb (typeof cur) "object" then
        if Array_isArray cur then
          if String.eqb (typeof_step key) "number" then
            cur' ← Get cur key; getValueByPropPath_while p' cur'
          else Normal VUndefined
        else
          if String.eqb (typeof_step key) "string" then
            cur' ← Get cur key; getValueByPropPath_while p' cur'
          else Normal VUndefined
      else Normal VUndefined
  end.

Definition getValueByPropPath (pathToProp : PathToProp) (rootVal : value)
  : completion value :=
  let p := pathToProp in
  let cur := rootVal in
  getValueByPropPath_while p cur.

(** ** JSON text of a path: [JSON.stringify]

    Characters are named by their code. *)
Definition dquote : ascii := ascii_of_N 34.
Definition backslash : ascii := ascii_of_N 92.

Definition hex_digit (n : N) : ascii :=
  if (n <? 10)%N then ascii_of_N (48 + n) else ascii_of_N (87 + n).

(** [UnicodeEscape]: backslash, [u] and four lowercase hexadecimal digits. *)
Definition UnicodeEscape (c : ascii) : string :=
  let n := N_of_ascii c in
  String backslash
    (String "u" (String "0" (String "0"
      (String (hex_digit (n / 16)) (String (hex_digit (n mod 16)) EmptyString))))).

(** One character of [QuoteJSONString]: the two-character escapes of
    backspace, tab, line feed, form feed, carriage return, the double quote
    and the backslash; a [UnicodeEscape] for the other control characters;
    any other character as it is. *)
Definition escape_char (c : ascii) : string :=
  let n := N_of_ascii c in
  if (n =? 8)%N then String backslash "b"
  else if (n =? 9)%N then String backslash "t"
  else if (n =? 10)%N then String backslash "n"
  else if (n =? 12)%N then String backslash "f"
  else if (n =? 13)%N then String backslash "r"
  else if (n =? 34)%N then String backslash (String dquote EmptyString)
  else if (n =? 92)%N then String backslash (String backslash EmptyString)
  else if (n <? 32)%N then UnicodeEscape c
  else String c EmptyString.

Fixpoint escape_chars (s : string) : string :=
  match s with
  | EmptyString => EmptyString
  | String c s' => escape_char c +:+ escape_chars s'
  end.

Definition QuoteJSONString (s : string) : string :=
  String dquote (escape_chars s +:+ String dquote EmptyString).

(** [SerializeJSONProperty] on a step: a string is quoted, a number is
    written by [Number::toString]. *)
Definition SerializeJSONProperty (key : step) : string :=
  match key with
  | SStr s => QuoteJSONString s
  | SNum n => Number_toString n
  end.

Fixpoint join_comma (parts : list string) : string :=
  match parts with
  | [] => EmptyString
  | [x] => x
  | x :: rest => x +:+ String "," (join_comma rest)
  end.

(** [SerializeJSONArray], without indentation: the elements separated by
    commas, between brackets. *)
Definition JSON_stringify (p : PathToProp) : string :=
  String "[" (join_comma (map SerializeJSONProperty p) +:+ "]").

(** ** Reading the JSON text of a path: [JSON.parse]

    The reader covers the JSON texts that denote an array of strings and
    integers, with white space allowed between tokens.  [None] stands for
    every other text: one [JSON.parse] rejects with a [SyntaxError], or one
    whose value is not such an array. *)
Definition is_ws (c : ascii) : bool :=
  let n := N_of_ascii c in
  (n =? 32)%N || (n =? 9)%N || (n =? 10)%N || (n =? 13)%N.

Fixpoint skip_ws (s : string) : string :=
  match s with
  | String c s' => if is_ws c then skip_ws s' else s
  | EmptyString => EmptyString
  end.

Definition hex_value (c : ascii) : option N :=
  let n := N_of_ascii c in
  if (48 <=? n)%N && (n <=? 57)%N then Some (n - 48)%N
  else if (97 <=? n)%N && (n <=? 102)%N then Some (n - 87)%N
  else if (65 <=? n)%N && (n <=? 70)%N then Some (n - 55)%N
  else None.

Definition hex4_value (h1 h2 h3 h4 : ascii) : option N :=
  match hex_value h1, hex_value h2, hex_value h3, hex_value h4 with
  | Some a, Some b, Some c, Some d => Some (((a * 16 + b) * 16 + c) * 16 + d)%N
  | _, _, _, _ => None
  end.

(** The character a two-character escape denotes. *)
Definition unescape_char (e : ascii) : option ascii :=
  let n := N_of_ascii e in
  if (n =? 34)%N then Some dquote
  else if (n =? 92)%N then Some backslash
  else if (n =? 47)%N then Some "/"%char
  else if (n =? 98)%N then Some (ascii_of_N 8)
  else if (n =? 102)%N then Some (ascii_of_N 12)
  else if (n =? 110)%N then Some (ascii_of_N 10)
  else if (n =? 114)%N then Some (ascii_of_N 13)
  else if (n =? 116)%N then Some (ascii_of_N 9)
  else None.

Definition cons_char (c : ascii) (r : option (string * string)) : option (string * string) :=
  match r with
  | Some (t, rest) => Some (String c t, rest)
  | None => None
  end.

(** The characters of a string literal after its opening quote, up to and
    including the closing quote: the string denoted and the text left. *)
Fixpoint parse_string_body (s : string) : option (string * string) :=
  match s with
  | EmptyString => None
  | String c rest =>
      if Ascii.eqb c dquote then Some (EmptyString, rest)
      else if Ascii.eqb c backslash then
        match rest with
        | EmptyString => None
        | String e rest1 =>
            if Ascii.eqb e "u" then
              match rest1 with
              | String h1 (String h2 (String h3 (String h4 rest2))) =>
                  match hex4_value h1 h2 h3 h4 with
                  | Some n =>
                      if (n <? 256)%N then cons_char (ascii_of_N n) (parse_string_body rest2)
                      else None
                  | None => None
                  end
              | _ => None
              end
            else
              match unescape_char e with
              | Some c' => cons_char c' (parse_string_body rest1)
              | None => None
              end
        end
      else if (N_of_ascii c <? 32)%N then None
      else cons_char c (parse_string_body rest)
  end.

Definition is_digit (c : ascii) : bool :=
  let n := N_of_ascii c in (48 <=? n)%N && (n <=? 57)%N.

(** The longest prefix of digits, and the text after it. *)
Fixpoint span_digits (s : string) : string * string :=
  match s with
  | EmptyString => (EmptyString, EmptyString)
  | String c s' =>
      if is_digit c then
        let (ds, rest) := span_digits s' in (String c ds, rest)
      else (EmptyString, s)
  end.

(** Whether the text goes on with a fraction or an exponent. *)
Definition continues_number (rest : string) : bool :=
  match rest with
  | String c _ => Ascii.eqb c "." || Ascii.eqb c "e" || Ascii.eqb c "E"
  | EmptyString => false
  end.

(** Whether a digit sequence has a superfluous leading zero. *)
Definition leading_zero (ds : string) : bool :=
  match ds with
  | String c (String _ _) => Ascii.eqb c "0"
  | _ => false
  end.

(** The digits of an integer literal: [0], or a digit sequence that does
    not start with [0]; no fraction and no exponent may follow. *)
Definition parse_digits (negative : bool) (s : string) : option (Z * string) :=
  let (ds, rest) := span_digits s in
  match ds with
  | EmptyString => None
  | _ =>
      if leading_zero ds then None
      else if continues_number rest then None
      else
        match NilEmpty.uint_of_string ds with
        | Some d =>
            let n := Z.of_uint d in
            Some (if negative then (- n)%Z else n, rest)
        | None => None
        end
  end.

(** An integer literal: an optional minus sign, then the digits. *)
Definition parse_number (s : string) : option (Z * string) :=
  match s with
  | String c s' => if Ascii.eqb c "-" then parse_digits true s' else parse_digits false s
  | EmptyString => None
  end.

(** Where a number ends: at the end of the text, or before a character
    that is neither a digit nor the start of a fraction or an exponent. *)
Definition ends_number (rest : string) : Prop :=
  match rest with
  | String c _ => is_digit c = false
  | EmptyString => True
  end /\ continues_number rest = false.

(** A step: a string literal or an integer literal. *)
Definition parse_step (s : string) : option (step * string) :=
  match s with
  | String c rest =>
      if Ascii.eqb c dquote then
        match parse_string_body rest with
        | Some (t, rest') => Some (SStr t, rest')
        | None => None
        end
      else
        match parse_number s with
        | Some (n, rest') => Some (SNum n, rest')
        | None => None
        end
  | EmptyString => None
  end.

(** The elements of a non-empty array, after the opening bracket or a
    comma, up to and including the closing bracket.  Each call reads one
    element; [fuel] bounds the number of elements. *)
Fixpoint parse_elements (fuel : nat) (s : string) : option (PathToProp * string) :=
  match fuel with
  | O => None
  | S fuel' =>
      match parse_step (skip_ws s) with
      | Some (key, rest) =>
          match skip_ws rest with
          | String c rest' =>
              if Ascii.eqb c "," then
                match parse_elements fuel' rest' with
                | Some (keys, rest'') => Some (key :: keys, rest'')
                | None => None
                end
              else if Ascii.eqb c "]" then Some ([key], rest')
              else None
          | EmptyString => None
          end
      | None => None
      end
  end.

(** After the opening bracket: the closing bracket of the empty array, or
    the elements.  An array has fewer elements than its text has
    characters, so the length of the text is fuel enough. *)
Definition parse_array_tail (rest : string) : option (PathToProp * string) :=
  match skip_ws rest with
  | String c rest' =>
      if Ascii.eqb c "]" then Some ([], rest')
      else parse_elements (String.length rest) rest
  | EmptyString => None
  end.

(** The whole text: an array, and nothing but white space after it. *)
Definition JSON_parse (text : string) : option PathToProp :=
  match skip_ws text with
  | String c rest =>
      if Ascii.eqb c "[" then
        match parse_array_tail rest with
        | Some (p, rest') =>
            match skip_ws rest' with
            | EmptyString => Some p
            | _ => None
            end
        | None => None
        end
      else None
  | EmptyString => None
  end.

(** ** [memoizeFn] *)

(** Modelled from the spec: the helper [memoizeFn] is imported from
    [./memoizeFn] and is not among the sources.  The spec gives it a cache
    with one entry per argument, written once on the first call and never
    invalidated.  The cache is threaded through the calls as state; paths
    are immutable values, so an entry is found under the path itself. *)
Definition memoizeFn {K V : Type} `{Countable K} (producer : K -> V)
  (cache : gmap K V) (k : K) : V * gmap K V :=
  match cache !! k with
  | Some v => (v, cache)
  | None => let v := producer k in (v, <[k := v]> cache)
  end.

(** ** [encodePathToProp] and [decodePathToProp] *)
Definition PathToProp_Encoded : Type := string.

Definition encodePathToProp
  : gmap PathToProp PathToProp_Encoded -> PathToProp ->
    PathToProp_Encoded * gmap PathToProp PathToProp_Encoded :=
  memoizeFn (fun p : PathToProp => JSON_stringify p).

Definition decodePathToProp (s : PathToProp_Encoded) : option PathToProp :=
  JSON_parse s.

(** The caches the module can be in: the empty cache it starts with, and
    the cache after a call of [encodePathToProp]. *)
Inductive cache_reachable : gmap PathToProp PathToProp_Encoded -> Prop :=
  | cache_initial : cache_reachable ∅
  | cache_after_encode (cache : gmap PathToProp PathToProp_Encoded) (p : PathToProp) :
      cache_reachable cache ->
      cache_reachable (snd (encodePathToProp cache p)).

(** ** Sub-values

    [reaches v w]: [w] is [v] itself, or lies inside [v] as an element of an
    array or as the value of a property, at any depth. *)
Inductive reaches : value -> value -> Prop :=
  | reaches_here (v : value) : reaches v v
  | reaches_element (elements : list value) (i : nat) (v w : value) :
      elements !! i = Some v -> reaches v w -> reaches (VArr elements) w
  | reaches_property (properties : gmap string value) (name : string) (v w : value) :
      properties !! name = Some v -> reaches v w -> reaches (VObj properties) w.

(** What a read can take from the prototype chain of a plain object:
    [Object.prototype] itself, its function members, and the [null] its
    chain ends with. *)
Definition from_ObjectPrototype (v : value) : Prop :=
  match v with
  | VObjectPrototype => True
  | VNull => True
  | VFunction _ => True
  | _ => False
  end.

(** The value [{a: [1, {b: 2}]}] of the specification's examples. *)
Definition example_rootVal : value :=
  VObj {[ "a" := VArr [VNum 1; VObj {[ "b" := VNum 2 ]}] ]}.

(** * Examples

    The examples of the specification and of the source's comments. *)

Example commonRoot_three_paths :
  commonRootOfPathsToProps 6
    [[SStr "a"; SStr "b"; SStr "c"; SStr "d"; SStr "e"];
     [SStr "a"; SStr "b"; SStr "x"; SStr "y"; SStr "z"];
     [SStr "a"; SStr "b"; SStr "c"]] = Some [SStr "a"; SStr "b"].
Proof. reflexivity. Qed.

Example commonRoot_first_path_longest :
  commonRootOfPathsToProps 4 [[SStr "a"; SNum 0; SStr "b"]; [SStr "a"]] = Some [SStr "a"].
Proof. reflexivity. Qed.

Example commonRoot_no_paths : commonRootOfPathsToProps 1 [] = Some [].
Proof. reflexivity. Qed.

Example commonRoot_one_path : commonRootOfPathsToProps 2 [[SStr "x"]] = Some [SStr "x"].
Proof. reflexivity. Qed.

Example commonRoot_out_of_fuel : commonRootOfPathsToProps 1 [[SStr "x"]] = None.
Proof. reflexivity. Qed.

Example getValueByPropPath_nested :
  getValueByPropPath [SStr "a"; SNum 1; SStr "b"] example_rootVal = Normal (VNum 2).
Proof. reflexivity. Qed.

Example getValueByPropPath_out_of_range :
  getValueByPropPath [SStr "a"; SNum 5] example_rootVal = Normal VUndefined.
Proof. reflexivity. Qed.

Example getValueByPropPath_negative_index :
  getValueByPropPath [SStr "a"; SNum (-1)] example_rootVal = Normal VUndefined.
Proof. reflexivity. Qed.

Example getValueByPropPath_string_step_on_array :
  getValueByPropPath [SStr "a"; SStr "x"] example_rootVal = Normal VUndefined.
Proof. reflexivity. Qed.

Example getValueByPropPath_through_primitive :
  getValueByPropPath [SStr "a"; SNum 0; SStr "x"] example_rootVal = Normal VUndefined.
Proof. reflexivity. Qed.

Example getValueByPropPath_root :
  getValueByPropPath [] example_rootVal = Normal example_rootVal.
Proof. reflexivity. Qed.

(** An own property hides the inherited member of the same name. *)
Example getValueByPropPath_own_toString :
  getValueByPropPath [SStr "toString"] (VObj {[ "toString" := VNum 1 ]}) = Normal (VNum 1).
Proof. reflexivity. Qed.

(** A function is not an object for [typeof]: a step on it gives
    [undefined]. *)
Example getValueByPropPath_through_function :
  getValueByPropPath [SStr "constructor"; SStr "name"] example_rootVal = Normal VUndefined.
Proof. reflexivity. Qed.

(** The guards of [getValueByPropPath] are what keeps the read from
    throwing: a bare read on [null] throws. *)
Example Get_null_throws : Get VNull (SStr "a") = Throw TypeError.
Proof. reflexivity. Qed.

Example JSON_stringify_mixed :
  JSON_stringify [SStr "a"; SNum 1; SStr "1"; SNum (-20)] =
  String "[" (String dquote (String "a" (String dquote (String "," (String "1"
    (String "," (String dquote (String "1" (String dquote ",-20]"))))))))).
Proof. reflexivity. Qed.

Example JSON_parse_white_space : JSON_parse " [ 1 , -0, 12 ] " = Some [SNum 1; SNum 0; SNum 12].
Proof. reflexivity. Qed.

Example JSON_parse_leading_zero : JSON_parse "[01]" = None.
Proof. reflexivity. Qed.

Example JSON_parse_trailing_comma : JSON_parse "[1,]" = None.
Proof. reflexivity. Qed.

(** * Properties *)

(** ** Strict equality on steps *)

Lemma step_strict_eq_true (a b : step) : step_strict_eq a b = true <-> a = b.
Proof.
  destruct a as [s|m], b as [t|n]; simpl.
  - rewrite String.eqb_eq. split; congruence.
  - split; [discriminate | congruence].
  - split; [discriminate | congruence].
  - rewrite Z.eqb_eq. split; congruence.
Qed.

Lemma strict_eq_true (x y : option step) : strict_eq x y = true <-> x = y.
Proof.
  destruct x as [a|], y as [b|]; simpl.
  - rewrite step_strict_eq_true. split; congruence.
  - split; [discriminate | congruence].
  - split; [discriminate | congruence].
  - split; reflexivity.
Qed.

Lemma strict_eq_refl (x : option step) : strict_eq x x = true.
Proof. apply strict_eq_true. reflexivity. Qed.

Lemma strict_eq_sym (x y : option step) : strict_eq x y = strict_eq y x.
Proof.
  destruct (strict_eq x y) eqn:E, (strict_eq y x) eqn:F; try reflexivity.
  - apply strict_eq_true in E. subst. rewrite strict_eq_refl in F. discriminate.
  - apply strict_eq_true in F. subst. rewrite strict_eq_refl in E. discriminate.
Qed.

(** ** [every] *)

Lemma every_from_true {A : Type} (f : A -> nat -> bool) (l : list A) (i : nat) :
  every_from f i l = true <->
  forall (j : nat) (x : A), l !! j = Some x -> f x (i + j)%nat = true.
Proof.
  revert i. induction l as [|a l IH]; intros i; simpl.
  - split; [intros _ j x H; discriminate | reflexivity].
  - rewrite andb_true_iff, IH. split.
    + intros [Ha Hl] [|j] x H; simpl in H.
      * injection H as <-. rewrite Nat.add_0_r. exact Ha.
      * replace (i + S j)%nat with (S i + j)%nat by lia. apply Hl, H.
    + intros H. split.
      * specialize (H 0%nat a eq_refl). rewrite Nat.add_0_r in H. exact H.
      * intros j x Hj. replace (S i + j)%nat with (i + S j)%nat by lia.
        apply H. exact Hj.
Qed.

(** ** [doesPathStartWith] *)

Lemma doesPathStartWith_true (path pathPrefix : PathToProp) :
  doesPathStartWith path pathPrefix = true <->
  forall (i : nat) (pathPart : step),
    pathPrefix !! i = Some pathPart -> path !! i = Some pathPart.
Proof.
  unfold doesPathStartWith, Array_every. rewrite every_from_true.
  split; intros H i x Hi; cbv beta in *.
  - symmetry. apply strict_eq_true. apply H, Hi.
  - apply strict_eq_true. symmetry. apply H, Hi.
Qed.

Lemma lookup_agree_prefix (path pathPrefix : PathToProp) :
  (forall (i : nat) (x : step), pathPrefix !! i = Some x -> path !! i = Some x) <->
  pathPrefix `prefix_of` path.
Proof.
  split.
  - revert path. induction pathPrefix as [|a q IH]; intros path H.
    + apply prefix_nil.
    + destruct path as [|b path].
      * specialize (H 0%nat a eq_refl). discriminate.
      * pose proof (H 0%nat a eq_refl) as H0. simpl in H0. injection H0 as ->.
        apply prefix_cons. apply IH. intros i x Hi. apply (H (S i) x Hi).
  - intros [k ->] i x Hi. apply lookup_app_l_Some. exact Hi.
Qed.

Lemma doesPathStartWith_prefix (path pathPrefix : PathToProp) :
  doesPathStartWith path pathPrefix = true <-> pathPrefix `prefix_of` path.
Proof. rewrite doesPathStartWith_true. apply lookup_agree_prefix. Qed.

Lemma doesPathStartWith_refl (path : PathToProp) : doesPathStartWith path path = true.
Proof. apply doesPathStartWith_prefix. reflexivity. Qed.

Lemma doesPathStartWith_length (path pathPrefix : PathToProp) :
  doesPathStartWith path pathPrefix = true -> (length pathPrefix <= length path)%nat.
Proof. rewrite doesPathStartWith_prefix. apply prefix_length. Qed.

(** ** [arePathsEqual] *)

Lemma arePathsEqual_for_true (remaining i : nat) (a b : PathToProp) :
  arePathsEqual_for remaining i a b = true <->
  forall j : nat, (i <= j < i + remaining)%nat -> strict_eq (a !! j) (b !! j) = true.
Proof.
  revert i. induction remaining as [|n IH]; intros i; simpl.
  - split; [intros _ j Hj; lia | reflexivity].
  - destruct (strict_eq (a !! i) (b !! i)) eqn:E; simpl.
    + rewrite IH. split; intros H j Hj.
      * destruct (decide (j = i)) as [->|Hne]; [exact E | apply H; lia].
      * apply H. lia.
    + split; [discriminate |].
      intros H. rewrite <- E. apply H. lia.
Qed.

Lemma arePathsEqual_true (a b : PathToProp) :
  arePathsEqual a b = true <->
  length a = length b /\
  forall i : nat, (i < length a)%nat -> strict_eq (a !! i) (b !! i) = true.
Proof.
  unfold arePathsEqual.
  destruct (Nat.eqb (length a) (length b)) eqn:E; simpl.
  - apply Nat.eqb_eq in E. rewrite arePathsEqual_for_true. split.
    + intros H. split; [exact E |]. intros i Hi. apply H. lia.
    + intros [_ H] j Hj. apply H. lia.
  - apply Nat.eqb_neq in E. split; [discriminate | intros [H _]; contradiction].
Qed.

Lemma arePathsEqual_eq (a b : PathToProp) : arePathsEqual a b = true <-> a = b.
Proof.
  rewrite arePathsEqual_true. split.
  - intros [Hlen H]. apply list_eq. intros i.
    destruct (decide (i < length a)%nat) as [Hi|Hi].
    + apply strict_eq_true, H, Hi.
    + rewrite !lookup_ge_None_2 by lia. reflexivity.
  - intros ->. split; [reflexivity |]. intros i _. apply strict_eq_refl.
Qed.

(** ** [commonRootOfPathsToProps] *)

Lemma prefix_snoc_lookup (acc p : PathToProp) (c : step) :
  acc `prefix_of` p -> p !! length acc = Some c -> (acc ++ [c]) `prefix_of` p.
Proof.
  intros [k ->] H.
  rewrite lookup_app_r in H by lia. rewrite Nat.sub_diag in H.
  destruct k as [|c' k]; [discriminate |]. injection H as ->.
  exists k. rewrite <- app_assoc. reflexivity.
Qed.

Lemma prefix_of_full (acc first : PathToProp) :
  acc `prefix_of` first -> first !! length acc = None -> acc = first.
Proof.
  intros [k ->] H.
  rewrite lookup_app_r in H by lia. rewrite Nat.sub_diag in H.
  destruct k; [rewrite app_nil_r; reflexivity | discriminate].
Qed.

(** Two prefixes of one path: the one that stops where the path has a step
    the other path lacks is the longer one. *)
Lemma prefix_of_stuck (acc c first p : PathToProp) (x : step) :
  acc `prefix_of` first -> c `prefix_of` first -> c `prefix_of` p ->
  first !! length acc = Some x -> p !! length acc <> Some x ->
  c `prefix_of` acc.
Proof.
  intros Hacc Hc Hcp Hx Hp.
  destruct (prefix_weak_total _ _ _ Hc Hacc) as [H|H]; [exact H |].
  destruct H as [k ->]. destruct k as [|y k].
  - rewrite app_nil_r. reflexivity.
  - exfalso. apply Hp.
    assert (Hy : (acc ++ y :: k) !! length acc = Some y).
    { rewrite lookup_app_r by lia. rewrite Nat.sub_diag. reflexivity. }
    pose proof (prefix_lookup_Some _ _ _ _ Hy Hc) as H1.
    rewrite Hx in H1. injection H1 as ->.
    apply (prefix_lookup_Some _ _ _ _ Hy Hcp).
Qed.

Lemma forallb_strict_eq_true (paths : list PathToProp) (c : step) (i : nat) :
  forallb (fun pathToProp : PathToProp => strict_eq (Some c) (pathToProp !! i)) paths = true <->
  forall p : PathToProp, In p paths -> p !! i = Some c.
Proof.
  rewrite forallb_forall. split; intros H p Hp.
  - symmetry. apply strict_eq_true. apply H, Hp.
  - apply strict_eq_true. symmetry. apply H, Hp.
Qed.

Lemma forallb_strict_eq_false (paths : list PathToProp) (c : step) (i : nat) :
  forallb (fun pathToProp : PathToProp => strict_eq (Some c) (pathToProp !! i)) paths = false ->
  exists p : PathToProp, In p paths /\ p !! i <> Some c.
Proof.
  induction paths as [|q paths IH]; cbn [forallb]; [discriminate |].
  destruct (strict_eq (Some c) (q !! i)) eqn:E; cbn [andb].
  - intros H. destruct (IH H) as (p & Hp & Hne). exists p.
    split; [right; exact Hp | exact Hne].
  - intros _. exists q. split; [left; reflexivity |]. intros Hq.
    rewrite Hq, strict_eq_refl in E. discriminate.
Qed.

(** The loop invariant: the accumulator is a prefix of every path.  With
    more fuel than the first path has steps left, the loop returns the
    longest common prefix. *)
Lemma commonRoot_while_correct (first : PathToProp) (others : list PathToProp) :
  forall (fuel : nat) (acc : PathToProp),
    (length first - length acc < fuel)%nat ->
    (forall p : PathToProp, In p (first :: others) -> acc `prefix_of` p) ->
    exists r : PathToProp,
      commonRoot_while fuel (first :: others) acc = Some r /\
      (forall p : PathToProp, In p (first :: others) -> r `prefix_of` p) /\
      (forall c : PathToProp,
          (forall p : PathToProp, In p (first :: others) -> c `prefix_of` p) ->
          c `prefix_of` r).
Proof.
  induction fuel as [|fuel IH]; intros acc Hfuel Hinv; [lia |].
  assert (Hfirst : acc `prefix_of` first) by (apply Hinv; left; reflexivity).
  cbn [commonRoot_while]. unfold commonRoot_body. cbn [lookup list_lookup mbind option_bind].
  destruct (first !! length acc) as [x|] eqn:Hx.
  - destruct (forallb _ (first :: others)) eqn:Hall.
    + rewrite forallb_strict_eq_true in Hall.
      apply IH.
      * apply lookup_lt_Some in Hx. rewrite length_app. simpl. lia.
      * intros p Hp. apply prefix_snoc_lookup; [apply Hinv, Hp | apply Hall, Hp].
    + apply forallb_strict_eq_false in Hall. destruct Hall as (q & Hq & Hne).
      exists acc. split; [reflexivity |]. split; [exact Hinv |].
      intros c Hc.
      apply (prefix_of_stuck acc c first q x); auto.
      apply Hc. left. reflexivity.
  - exists acc. split; [reflexivity |]. split; [exact Hinv |].
    intros c Hc. rewrite (prefix_of_full acc first Hfirst Hx).
    apply Hc. left. reflexivity.
Qed.

Lemma commonRoot_nonempty (first : PathToProp) (others : list PathToProp) :
  exists r : PathToProp,
    (forall fuel : nat, (length first < fuel)%nat ->
       commonRootOfPathsToProps fuel (first :: others) = Some r) /\
    (forall p : PathToProp, In p (first :: others) -> r `prefix_of` p) /\
    (forall c : PathToProp,
        (forall p : PathToProp, In p (first :: others) -> c `prefix_of` p) ->
        c `prefix_of` r).
Proof.
  destruct (commonRoot_while_correct first others (S (length first)) [])
    as (r & Hr & Hcommon & Hmax).
  { simpl. lia. }
  { intros p _. apply prefix_nil. }
  exists r. split; [| split; assumption].
  intros fuel Hfuel.
  destruct (commonRoot_while_correct first others fuel [])
    as (r' & Hr' & Hcommon' & Hmax').
  { simpl. lia. }
  { intros p _. apply prefix_nil. }
  unfold commonRootOfPathsToProps. rewrite Hr'. f_equal.
  apply (anti_symm prefix); [apply Hmax, Hcommon' | apply Hmax', Hcommon].
Qed.

Lemma commonRoot_empty (fuel : nat) :
  (0 < fuel)%nat -> commonRootOfPathsToProps fuel [] = Some [].
Proof. destruct fuel; [lia | reflexivity]. Qed.

(** ** Decimal text of integers *)

Lemma to_uint_no_leading_zero (p : positive) (u : Decimal.uint) :
  Pos.to_uint p <> Decimal.D0 u.
Proof.
  intros H.
  pose proof (DecimalPos.Unsigned.to_of (Pos.to_uint p)) as Hnorm.
  rewrite DecimalPos.Unsigned.of_to in Hnorm. simpl in Hnorm.
  rewrite H in Hnorm. rewrite DecimalFacts.unorm_D0 in Hnorm.
  assert (Hcases : u = Decimal.Nil \/ u <> Decimal.Nil)
    by (destruct u; [left; reflexivity | right; discriminate ..]).
  destruct Hcases as [->|Hu].
  - apply (Unsigned.to_uint_nonzero p). exact H.
  - pose proof (DecimalFacts.nb_digits_unorm u Hu) as Hn.
    rewrite <- Hnorm in Hn. simpl in Hn. lia.
Qed.

Lemma is_digit_not_ws (c : ascii) : is_digit c = true -> is_ws c = false.
Proof.
  unfold is_digit, is_ws. cbv zeta. intros H.
  apply andb_true_iff in H. destruct H as [H1 H2].
  apply N.leb_le in H1. 
  repeat rewrite orb_false_iff. repeat split; apply N.eqb_neq; lia.
Qed.

(** The text of a digit sequence: every character is a digit. *)
Lemma span_digits_string_of_uint (d : Decimal.uint) (rest : string) :
  match rest with String c _ => is_digit c = false | EmptyString => True end ->
  span_digits (NilEmpty.string_of_uint d +:+ rest) = (NilEmpty.string_of_uint d, rest).
Proof.
  intros Hrest. induction d; simpl;
    try (rewrite IHd; reflexivity).
  destruct rest as [|c rest]; [reflexivity |]. simpl. rewrite Hrest. reflexivity.
Qed.

Lemma leading_zero_to_uint (p : positive) :
  leading_zero (NilEmpty.string_of_uint (Pos.to_uint p)) = false.
Proof.
  destruct (Pos.to_uint p) as [|u|u|u|u|u|u|u|u|u|u] eqn:E;
    try reflexivity;
    try (simpl;
         match goal with
         | |- context [NilEmpty.string_of_uint ?d] =>
             destruct (NilEmpty.string_of_uint d); reflexivity
         end).
  exfalso. apply (to_uint_no_leading_zero p u E).
Qed.

Lemma string_of_to_uint_nonempty (p : positive) :
  NilEmpty.string_of_uint (Pos.to_uint p) <> EmptyString.
Proof.
  destruct (Pos.to_uint p) eqn:E; try discriminate.
  exfalso. apply (Unsigned.to_uint_nonnil p E).
Qed.

Lemma Z_of_to_uint (p : positive) : Z.of_uint (Pos.to_uint p) = Zpos p.
Proof.
  unfold Z.of_uint. rewrite DecimalPos.Unsigned.of_to. reflexivity.
Qed.

Lemma parse_digits_to_uint (negative : bool) (p : positive) (rest : string) :
  ends_number rest ->
  parse_digits negative (NilEmpty.string_of_uint (Pos.to_uint p) +:+ rest) =
  Some (if negative then Zneg p else Zpos p, rest).
Proof.
  intros [Hdigit Hcont]. unfold parse_digits.
  rewrite span_digits_string_of_uint by exact Hdigit.
  pose proof (string_of_to_uint_nonempty p) as Hne.
  destruct (NilEmpty.string_of_uint (Pos.to_uint p)) as [|c ds] eqn:E; [contradiction |].
  rewrite <- E. rewrite leading_zero_to_uint, Hcont, NilEmpty.usu.
  cbv zeta. rewrite Z_of_to_uint. destruct negative; reflexivity.
Qed.

Lemma parse_number_toString (n : Z) (rest : string) :
  ends_number rest ->
  parse_number (Number_toString n +:+ rest) = Some (n, rest).
Proof.
  intros Hend. destruct n as [|p|p]; unfold Number_toString.
  - destruct Hend as [Hdigit Hcont].
    simpl. unfold parse_digits. simpl.
    destruct rest as [|c rest].
    + reflexivity.
    + simpl. rewrite Hdigit. simpl in Hcont. simpl. rewrite Hcont. reflexivity.
  - pose proof (parse_digits_to_uint false p rest Hend) as H.
    destruct (NilEmpty.string_of_uint (Pos.to_uint p)) as [|c ds] eqn:E.
    + exfalso. apply (string_of_to_uint_nonempty p E).
    + change (String.append (String c ds) rest)
        with (String c (String.append ds rest)) in *.
      unfold parse_number.
      destruct (Ascii.eqb c "-") eqn:Hc; [| exact H].
      exfalso. apply Ascii.eqb_eq in Hc. subst c.
      destruct (Pos.to_uint p); discriminate.
  - change (parse_number (String "-" (String.append
             (NilEmpty.string_of_uint (Pos.to_uint p)) rest)) = Some (Zneg p, rest)).
    unfold parse_number. rewrite Ascii.eqb_refl.
    apply (parse_digits_to_uint true p rest Hend).
Qed.

(** The first character of a number's text is a minus sign or a digit. *)
Lemma Number_toString_head (n : Z) :
  exists (c : ascii) (s : string),
    Number_toString n = String c s /\ (c = "-"%char \/ is_digit c = true).
Proof.
  destruct n as [|p|p]; unfold Number_toString.
  - exists "0"%char, EmptyString. split; [reflexivity | right; reflexivity].
  - pose proof (Unsigned.to_uint_nonnil p) as Hne.
    destruct (Pos.to_uint p); [contradiction | ..]; simpl;
      eexists _, _; (split; [reflexivity | right; reflexivity]).
  - eexists _, _. split; [reflexivity | left; reflexivity].
Qed.

(** ** Array reads *)

Lemma Number_toString_not_length (n : Z) :
  String.eqb (Number_toString n) "length" = false.
Proof.
  destruct (Number_toString_head n) as (c & s & -> & [-> | Hc]); [reflexivity |].
  apply String.eqb_neq. intros H. injection H as -> _. discriminate.
Qed.

Lemma array_index_of_toString (n : Z) :
  array_index_of (Number_toString n) =
  if (0 <=? n)%Z then Some (Z.to_nat n) else None.
Proof.
  destruct n as [|p|p]; unfold array_index_of, Number_toString.
  - reflexivity.
  - rewrite NilEmpty.usu. cbv zeta.
    unfold N.of_uint. rewrite DecimalPos.Unsigned.of_to. cbn [Z.of_N Number_toString].
    rewrite String.eqb_refl. reflexivity.
  - cbn [NilEmpty.uint_of_string]. rewrite NilEmpty.usu. reflexivity.
Qed.

Lemma GetOwnProperty_array_index (elements : list value) (n : Z) :
  GetOwnProperty (VArr elements) (ToPropertyKey (SNum n)) =
  if (0 <=? n)%Z then elements !! Z.to_nat n else None.
Proof.
  cbn [GetOwnProperty ToPropertyKey].
  rewrite Number_toString_not_length, array_index_of_toString.
  destruct (0 <=? n)%Z; reflexivity.
Qed.

(** ** [getValueByPropPath] *)

Lemma getValueByPropPath_undefined (rest : PathToProp) :
  getValueByPropPath rest VUndefined = Normal VUndefined.
Proof. destruct rest; reflexivity. Qed.

Lemma getValueByPropPath_not_object (key : step) (rest : PathToProp) (cur : value) :
  is_null cur = true \/ typeof cur <> "object" ->
  getValueByPropPath (key :: rest) cur = Normal VUndefined.
Proof.
  intros [H|H]; destruct cur; try discriminate; try reflexivity;
    exfalso; apply H; reflexivity.
Qed.

Lemma getValueByPropPath_array_string (s : string) (rest : PathToProp) (elements : list value) :
  getValueByPropPath (SStr s :: rest) (VArr elements) = Normal VUndefined.
Proof. reflexivity. Qed.

Lemma Get_array_number (elements : list value) (n : Z) :
  Get (VArr elements) (SNum n) =
  Normal (if (0 <=? n)%Z then default VUndefined (elements !! Z.to_nat n)
          else VUndefined).
Proof.
  unfold Get. cbv zeta. rewrite GetOwnProperty_array_index.
  destruct (0 <=? n)%Z; [| reflexivity].
  destruct (elements !! Z.to_nat n); reflexivity.
Qed.

Lemma getValueByPropPath_array_number (n : Z) (rest : PathToProp) (elements : list value) :
  getValueByPropPath (SNum n :: rest) (VArr elements) =
  getValueByPropPath rest
    (if (0 <=? n)%Z then default VUndefined (elements !! Z.to_nat n) else VUndefined).
Proof.
  unfold getValueByPropPath.
  change (getValueByPropPath_while (SNum n :: rest) (VArr elements))
    with (Get (VArr elements) (SNum n) ≫= getValueByPropPath_while rest).
  rewrite Get_array_number. reflexivity.
Qed.

Lemma getValueByPropPath_object_number (n : Z) (rest : PathToProp)
    (properties : gmap string value) :
  getValueByPropPath (SNum n :: rest) (VObj properties) = Normal VUndefined.
Proof. reflexivity. Qed.

(** A string step on a plain object: the object's own property of that name
    or, without one, the member inherited from [Object.prototype]. *)
Lemma getValueByPropPath_object_string (s : string) (rest : PathToProp)
    (properties : gmap string value) :
  getValueByPropPath (SStr s :: rest) (VObj properties) =
  getValueByPropPath rest
    (match properties !! s with
     | Some v => v
     | None => default VUndefined (ObjectPrototype_Get VObjectPrototype s)
     end).
Proof.
  unfold getValueByPropPath.
  change (getValueByPropPath_while (SStr s :: rest) (VObj properties))
    with (Get (VObj properties) (SStr s) ≫= getValueByPropPath_while rest).
  unfold Get. cbn [ToPropertyKey GetOwnProperty].
  destruct (properties !! s); reflexivity.
Qed.

Lemma getValueByPropPath_object_own (s : string) (rest : PathToProp)
    (properties : gmap string value) (v : value) :
  properties !! s = Some v ->
  getValueByPropPath (SStr s :: rest) (VObj properties) = getValueByPropPath rest v.
Proof. intros H. rewrite getValueByPropPath_object_string, H. reflexivity. Qed.

Lemma getValueByPropPath_prototype_number (n : Z) (rest : PathToProp) :
  getValueByPropPath (SNum n :: rest) VObjectPrototype = Normal VUndefined.
Proof. reflexivity. Qed.

Lemma getValueByPropPath_prototype_string (s : string) (rest : PathToProp) :
  getValueByPropPath (SStr s :: rest) VObjectPrototype =
  getValueByPropPath rest (default VUndefined (ObjectPrototype_Get VNull s)).
Proof. reflexivity. Qed.

(** A member of [Object.prototype] is the receiver's prototype or a
    function. *)
Lemma ObjectPrototype_Get_Some (proto : value) (name : string) (v : value) :
  ObjectPrototype_Get proto name = Some v ->
  v = proto \/ exists f : string, v = VFunction f.
Proof.
  unfold ObjectPrototype_Get.
  destruct (String.eqb name "constructor");
    [intros H; injection H as <-; right; eexists; reflexivity |].
  destruct (String.eqb name "__proto__");
    [intros H; injection H as <-; left; reflexivity |].
  destruct (existsb _ _); [| discriminate].
  intros H; injection H as <-. right. eexists. reflexivity.
Qed.

Lemma ObjectPrototype_Get_from (proto : value) (name : string) :
  from_ObjectPrototype proto ->
  default VUndefined (ObjectPrototype_Get proto name) = VUndefined \/
  from_ObjectPrototype (default VUndefined (ObjectPrototype_Get proto name)).
Proof.
  intros Hproto. destruct (ObjectPrototype_Get proto name) as [v|] eqn:E;
    [| left; reflexivity].
  right. apply ObjectPrototype_Get_Some in E.
  destruct E as [-> | [f ->]]; [exact Hproto | exact I].
Qed.

Lemma reaches_trans (u v w : value) : reaches u v -> reaches v w -> reaches u w.
Proof.
  intros Huv Hvw. induction Huv.
  - exact Hvw.
  - eapply reaches_element; eauto.
  - eapply reaches_property; eauto.
Qed.

(** What the value after one more step leads to, seen from the root. *)
Lemma result_from_next (root next r : value) :
  next = VUndefined \/ reaches root next \/ from_ObjectPrototype next ->
  r = VUndefined \/ reaches next r \/ from_ObjectPrototype r ->
  r = VUndefined \/ reaches root r \/ from_ObjectPrototype r.
Proof.
  intros Hnext [Hr | [Hr | Hr]]; [left; exact Hr | | right; right; exact Hr].
  destruct Hnext as [-> | [Hnext | Hnext]].
  - inversion Hr. left. reflexivity.
  - right. left. apply (reaches_trans _ _ _ Hnext Hr).
  - right. right. destruct next; try contradiction; inversion Hr; subst; exact I.
Qed.

(** [getValueByPropPath] returns normally, and what it returns is
    [undefined], a value inside [rootVal], or a value taken from the
    prototype chain of a plain object. *)
Lemma getValueByPropPath_result (pathToProp : PathToProp) :
  forall rootVal : value,
  exists result : value,
    getValueByPropPath pathToProp rootVal = Normal result /\
    (result = VUndefined \/ reaches rootVal result \/ from_ObjectPrototype result).
Proof.
  induction pathToProp as [|key rest IH]; intros rootVal.
  - exists rootVal. split; [reflexivity | right; left; constructor].
  - destruct rootVal as [| |b|n|s|elements|properties|f|];
      try (exists VUndefined; split; [reflexivity | left; reflexivity]).
    + destruct key as [s|n].
      * exists VUndefined. split; [reflexivity | left; reflexivity].
      * rewrite getValueByPropPath_array_number.
        destruct (0 <=? n)%Z.
        -- destruct (IH (default VUndefined (elements !! Z.to_nat n))) as (r & Hr & Hreach).
           exists r. split; [exact Hr |].
           apply (result_from_next _ _ _) with (2 := Hreach).
           destruct (elements !! Z.to_nat n) as [x|] eqn:Hx; [| left; reflexivity].
           right. left. eapply reaches_element; [exact Hx | constructor].
        -- exists VUndefined. split; [apply getValueByPropPath_undefined | left; reflexivity].
    + destruct key as [s|n].
      * rewrite getValueByPropPath_object_string.
        destruct (properties !! s) as [x|] eqn:Hx.
        -- destruct (IH x) as (r & Hr & Hreach).
           exists r. split; [exact Hr |].
           apply (result_from_next _ _ _) with (2 := Hreach).
           right. left. eapply reaches_property; [exact Hx | constructor].
        -- destruct (IH (default VUndefined (ObjectPrototype_Get VObjectPrototype s)))
             as (r & Hr & Hreach).
           exists r. split; [exact Hr |].
           apply (result_from_next _ _ _) with (2 := Hreach).
           destruct (ObjectPrototype_Get_from VObjectPrototype s I) as [-> | H];
             [left; reflexivity | right; right; exact H].
      * exists VUndefined. split; [reflexivity | left; reflexivity].
    + destruct key as [s|n].
      * rewrite getValueByPropPath_prototype_string.
        destruct (IH (default VUndefined (ObjectPrototype_Get VNull s))) as (r & Hr & Hreach).
        exists r. split; [exact Hr |].
        apply (result_from_next _ _ _) with (2 := Hreach).
        destruct (ObjectPrototype_Get_from VNull s I) as [-> | H];
          [left; reflexivity | right; right; exact H].
      * exists VUndefined. split; [reflexivity | left; reflexivity].
Qed.

(** ** JSON text: reading back what was written *)

Lemma string_app_cons (c : ascii) (s t : string) :
  String.append (String c s) t = String c (String.append s t).
Proof. reflexivity. Qed.

Lemma string_app_assoc (s1 s2 s3 : string) :
  String.append (String.append s1 s2) s3 = String.append s1 (String.append s2 s3).
Proof.
  induction s1 as [|c s1 IH]; [reflexivity |].
  rewrite !string_app_cons, IH. reflexivity.
Qed.

Lemma string_length_app (s1 s2 : string) :
  String.length (String.append s1 s2) = (String.length s1 + String.length s2)%nat.
Proof.
  induction s1 as [|c s1 IH]; [reflexivity |].
  rewrite string_app_cons. cbn [String.length]. rewrite IH. reflexivity.
Qed.

(** One escaped character is read back as the character. *)
Lemma parse_string_body_escape_char (c : ascii) (tail : string) :
  parse_string_body (String.append (escape_char c) tail) =
  cons_char c (parse_string_body tail).
Proof.
  destruct c as [b0 b1 b2 b3 b4 b5 b6 b7].
  destruct b0, b1, b2, b3, b4, b5, b6, b7; reflexivity.
Qed.

Lemma parse_string_body_escape_chars (s rest : string) :
  parse_string_body (String.append (escape_chars s) (String dquote rest)) = Some (s, rest).
Proof.
  induction s as [|c s IH].
  - reflexivity.
  - cbn [escape_chars]. rewrite string_app_assoc, parse_string_body_escape_char, IH.
    reflexivity.
Qed.

Lemma is_digit_not_dquote (c : ascii) : is_digit c = true -> Ascii.eqb c dquote = false.
Proof.
  intros H. apply Ascii.eqb_neq. intros ->. discriminate.
Qed.

Lemma parse_step_Serialize (key : step) (rest : string) :
  ends_number rest ->
  parse_step (String.append (SerializeJSONProperty key) rest) = Some (key, rest).
Proof.
  intros Hend. destruct key as [s|n]; cbn [SerializeJSONProperty].
  - unfold QuoteJSONString.
    change (parse_step (String dquote
              (String.append (String.append (escape_chars s) (String dquote EmptyString)) rest))
            = Some (SStr s, rest)).
    unfold parse_step. rewrite Ascii.eqb_refl, string_app_assoc.
    change (String.append (String dquote EmptyString) rest) with (String dquote rest).
    rewrite parse_string_body_escape_chars. reflexivity.
  - pose proof (parse_number_toString n rest Hend) as Hnum.
    destruct (Number_toString_head n) as (c & s & E & Hc). rewrite E in *.
    change (String.append (String c s) rest) with (String c (String.append s rest)) in *.
    unfold parse_step. rewrite Hnum.
    destruct Hc as [-> | Hc]; [reflexivity |].
    rewrite (is_digit_not_dquote c Hc). reflexivity.
Qed.

(** The text of a step does not start with white space. *)
Lemma skip_ws_Serialize (key : step) (rest : string) :
  skip_ws (String.append (SerializeJSONProperty key) rest) =
  String.append (SerializeJSONProperty key) rest.
Proof.
  destruct key as [s|n]; cbn [SerializeJSONProperty].
  - reflexivity.
  - destruct (Number_toString_head n) as (c & s & -> & Hc).
    change (String.append (String c s) rest) with (String c (String.append s rest)).
    cbn [skip_ws]. destruct Hc as [-> | Hc]; [reflexivity |].
    rewrite (is_digit_not_ws c Hc). reflexivity.
Qed.

(** The text of a step does not start with a closing bracket. *)
Lemma Serialize_head (key : step) :
  exists (c : ascii) (s : string),
    SerializeJSONProperty key = String c s /\ Ascii.eqb c "]" = false.
Proof.
  destruct key as [t|n]; cbn [SerializeJSONProperty].
  - eexists _, _. split; reflexivity.
  - destruct (Number_toString_head n) as (c & s & -> & Hc).
    exists c, s. split; [reflexivity |].
    destruct Hc as [-> | Hc]; [reflexivity |].
    apply Ascii.eqb_neq. intros ->. discriminate.
Qed.

Lemma ends_number_comma (rest : string) : ends_number (String "," rest).
Proof. split; reflexivity. Qed.

Lemma ends_number_bracket (rest : string) : ends_number (String "]" rest).
Proof. split; reflexivity. Qed.

Lemma parse_elements_join (keys : PathToProp) :
  forall (key : step) (fuel : nat) (rest : string),
    (length keys < fuel)%nat ->
    parse_elements fuel
      (String.append (join_comma (map SerializeJSONProperty (key :: keys))) (String "]" rest)) =
    Some (key :: keys, rest).
Proof.
  induction keys as [|key' keys IH]; intros key fuel rest Hfuel;
    (destruct fuel as [|fuel]; [lia |]).
  - cbn [map join_comma parse_elements].
    rewrite skip_ws_Serialize, parse_step_Serialize by apply ends_number_bracket.
    reflexivity.
  - change (join_comma (map SerializeJSONProperty (key :: key' :: keys)))
      with (String.append (SerializeJSONProperty key)
              (String "," (join_comma (map SerializeJSONProperty (key' :: keys))))).
    rewrite string_app_assoc.
    change (String.append (String "," (join_comma (map SerializeJSONProperty (key' :: keys))))
              (String "]" rest))
      with (String ","
              (String.append (join_comma (map SerializeJSONProperty (key' :: keys)))
                 (String "]" rest))).
    cbn [parse_elements].
    rewrite skip_ws_Serialize, parse_step_Serialize by apply ends_number_comma.
    cbn [skip_ws is_ws]. 
    change (is_ws ",") with false. cbv iota.
    change (Ascii.eqb "," ",") with true. cbv iota.
    rewrite IH by (simpl in Hfuel; lia). reflexivity.
Qed.

Lemma Serialize_length (key : step) :
  (1 <= String.length (SerializeJSONProperty key))%nat.
Proof.
  destruct (Serialize_head key) as (c & s & -> & _). simpl. lia.
Qed.

Lemma join_comma_length (keys : PathToProp) :
  (length keys <= String.length (join_comma (map SerializeJSONProperty keys)))%nat.
Proof.
  induction keys as [|key keys IH]; [simpl; lia |].
  destruct keys as [|key' keys].
  - simpl. apply Serialize_length.
  - change (join_comma (map SerializeJSONProperty (key :: key' :: keys)))
      with (String.append (SerializeJSONProperty key)
              (String "," (join_comma (map SerializeJSONProperty (key' :: keys))))).
    rewrite string_length_app. 
    change (String.length (String "," ?s)) with (S (String.length s)).
    pose proof (Serialize_length key).
    cbn [length] in *.
    change (String.length (String "," (join_comma (map SerializeJSONProperty (key' :: keys)))))
      with (S (String.length (join_comma (map SerializeJSONProperty (key' :: keys))))).
    lia.
Qed.

(** [JSON.parse(JSON.stringify(p))] is [p]. *)
Lemma JSON_parse_stringify (p : PathToProp) : JSON_parse (JSON_stringify p) = Some p.
Proof.
  destruct p as [|key keys]; [reflexivity |].
  unfold JSON_stringify, JSON_parse. cbn [skip_ws].
  change (is_ws "[") with false. cbv iota.
  change (Ascii.eqb "[" "[") with true. cbv iota.
  set (body := join_comma (map SerializeJSONProperty (key :: keys))).
  assert (Htail : parse_array_tail (String.append body "]") = Some (key :: keys, EmptyString)).
  { unfold parse_array_tail.
    assert (Hskip : skip_ws (String.append body "]") = String.append body "]").
    { subst body. destruct keys as [|key' keys].
      - cbn [map join_comma]. apply skip_ws_Serialize.
      - change (join_comma (map SerializeJSONProperty (key :: key' :: keys)))
          with (String.append (SerializeJSONProperty key)
                  (String "," (join_comma (map SerializeJSONProperty (key' :: keys))))).
        rewrite string_app_assoc. apply skip_ws_Serialize. }
    rewrite Hskip.
    assert (Hhead : exists (c : ascii) (s : string),
               String.append body "]" = String c s /\ Ascii.eqb c "]" = false).
    { subst body. destruct (Serialize_head key) as (c & s & E & Hc).
      destruct keys as [|key' keys].
      - cbn [map join_comma]. rewrite E. eexists _, _. split; [reflexivity | exact Hc].
      - change (join_comma (map SerializeJSONProperty (key :: key' :: keys)))
          with (String.append (SerializeJSONProperty key)
                  (String "," (join_comma (map SerializeJSONProperty (key' :: keys))))).
        rewrite E. eexists _, _. split; [reflexivity | exact Hc]. }
    destruct Hhead as (c & s & E & Hc).
    rewrite E at 1. rewrite Hc.
    subst body. apply parse_elements_join.
    rewrite string_length_app. pose proof (join_comma_length (key :: keys)) as Hlen.
    cbn [length] in *. simpl String.length at 2. lia. }
  rewrite Htail. reflexivity.
Qed.

(** ** The memoisation cache *)

Lemma memoizeFn_cases {K V : Type} `{Countable K} (producer : K -> V)
    (cache : gmap K V) (k : K) :
  (cache !! k = None /\
   memoizeFn producer cache k = (producer k, <[k := producer k]> cache)) \/
  (exists v : V, cache !! k = Some v /\ memoizeFn producer cache k = (v, cache)).
Proof.
  unfold memoizeFn. destruct (cache !! k) as [v|].
  - right. exists v. split; reflexivity.
  - left. split; reflexivity.
Qed.

Lemma cache_reachable_consistent (cache : gmap PathToProp PathToProp_Encoded) :
  cache_reachable cache ->
  forall (p : PathToProp) (s : PathToProp_Encoded),
    cache !! p = Some s -> s = JSON_stringify p.
Proof.
  induction 1 as [|cache p0 Hreach IH]; intros p s Hlookup.
  - rewrite lookup_empty in Hlookup. discriminate.
  - unfold encodePathToProp in Hlookup.
    destruct (memoizeFn_cases (fun p : PathToProp => JSON_stringify p) cache p0)
      as [[E Hm] | (v & E & Hm)]; rewrite Hm in Hlookup; cbn [snd] in Hlookup.
    + apply lookup_insert_Some in Hlookup.
      destruct Hlookup as [[-> <-] | [_ Hlookup]]; [reflexivity | apply IH, Hlookup].
    + apply IH, Hlookup.
Qed.

(** With or without a cache entry, the encoding of a path is its JSON
    text. *)
Lemma encodePathToProp_value (cache : gmap PathToProp PathToProp_Encoded) (p : PathToProp) :
  cache_reachable cache -> fst (encodePathToProp cache p) = JSON_stringify p.
Proof.
  intros Hreach. unfold encodePathToProp.
  destruct (memoizeFn_cases (fun p : PathToProp => JSON_stringify p) cache p)
    as [[E Hm] | (v & E & Hm)]; rewrite Hm; cbn [fst]; [reflexivity |].
  apply (cache_reachable_consistent cache Hreach p v E).
Qed.

Lemma JSON_stringify_inj (p q : PathToProp) :
  JSON_stringify p = JSON_stringify q -> p = q.
Proof.
  intros H. apply (f_equal JSON_parse) in H.
  rewrite !JSON_parse_stringify in H. injection H as ->. reflexivity.
Qed.

(** * The properties the specification states *)

(** C1. Round trip: for every path [p] of string and number steps, and in
    every state of the memoisation cache,
    [decodePathToProp(encodePathToProp(p))] is [p], step by step. *)
Theorem decodePathToProp_encodePathToProp
    (cache : gmap PathToProp PathToProp_Encoded) (p : PathToProp) :
  cache_reachable cache ->
  exists p' : PathToProp,
    decodePathToProp (fst (encodePathToProp cache p)) = Some p' /\
    arePathsEqual p' p = true.
Proof.
  intros Hreach. exists p. split.
  - rewrite (encodePathToProp_value cache p Hreach). apply JSON_parse_stringify.
  - apply arePathsEqual_eq. reflexivity.
Qed.

Lemma decodePathToProp_encodePathToProp_witness :
  cache_reachable ∅ /\
  exists p' : PathToProp,
    decodePathToProp (fst (encodePathToProp ∅ [SStr "a"; SNum 1; SStr "1"])) = Some p' /\
    arePathsEqual p' [SStr "a"; SNum 1; SStr "1"] = true.
Proof.
  split; [exact cache_initial |].
  apply (decodePathToProp_encodePathToProp ∅ [SStr "a"; SNum 1; SStr "1"]).
  exact cache_initial.
Defined.

(** C2. The step rules have a string step on a plain object read the
    field of that name, a missing key giving [undefined] at that level.
    The code reads [cur[key]] without asking whether the property is the
    object's own, so a key that is missing but names a member of
    [Object.prototype] gives that member: on the empty object the path
    [['toString']] resolves to the inherited function, not to [undefined],
    and [['__proto__', '__proto__']] resolves to [null]. *)
Theorem getValueByPropPath_inherited_member :
  (∅ : gmap string value) !! "toString" = None /\
  getValueByPropPath [SStr "toString"] (VObj ∅) = Normal (VFunction "toString") /\
  getValueByPropPath [SStr "toString"] (VObj ∅) <> Normal VUndefined /\
  getValueByPropPath [SStr "__proto__"; SStr "__proto__"] (VObj ∅) = Normal VNull.
Proof.
  split; [reflexivity |]. split; [reflexivity |].
  split; [discriminate | reflexivity].
Qed.

(** C3. [commonRootOfPathsToProps] returns the longest common prefix of the
    paths of the collection: the loop returns within one turn more than the
    first path has steps; what it returns is a prefix of every path; for a
    collection that is not empty every common prefix is a prefix of it, and
    so no longer; the empty collection gives the empty path and a single
    path gives that path; and the result does not depend on which path
    comes first. *)
Theorem commonRootOfPathsToProps_longest_common_prefix (pathsToProps : list PathToProp) :
  exists root : PathToProp,
    (forall fuel : nat,
        (length (default [] (head pathsToProps)) < fuel)%nat ->
        commonRootOfPathsToProps fuel pathsToProps = Some root) /\
    (forall p : PathToProp, In p pathsToProps -> doesPathStartWith p root = true) /\
    (pathsToProps <> [] ->
     forall c : PathToProp,
       (forall p : PathToProp, In p pathsToProps -> doesPathStartWith p c = true) ->
       doesPathStartWith root c = true /\ (length c <= length root)%nat) /\
    (pathsToProps = [] -> root = []) /\
    (forall p : PathToProp, pathsToProps = [p] -> arePathsEqual root p = true) /\
    (forall (reordered : list PathToProp) (fuel : nat),
        Permutation pathsToProps reordered ->
        (length (default [] (head reordered)) < fuel)%nat ->
        commonRootOfPathsToProps fuel reordered = Some root).
Proof.
  destruct pathsToProps as [|first others].
  - exists []. split; [| split; [| split; [| split; [| split]]]].
    + intros fuel Hfuel. apply commonRoot_empty. simpl in Hfuel. lia.
    + intros p [].
    + intros H. contradiction.
    + reflexivity.
    + intros p Hp. discriminate.
    + intros reordered fuel Hperm Hfuel.
      apply Permutation_nil in Hperm. subst reordered.
      apply commonRoot_empty. simpl in Hfuel. lia.
  - destruct (commonRoot_nonempty first others) as (root & Hrun & Hcommon & Hmax).
    exists root. split; [exact Hrun |]. split; [| split; [| split; [| split]]].
    + intros p Hp. apply doesPathStartWith_prefix, Hcommon, Hp.
    + intros _ c Hc.
      assert (Hpre : c `prefix_of` root).
      { apply Hmax. intros p Hp. apply doesPathStartWith_prefix, Hc, Hp. }
      split; [apply doesPathStartWith_prefix, Hpre | apply prefix_length, Hpre].
    + discriminate.
    + intros p Hp. injection Hp as -> ->. apply arePathsEqual_eq.
      apply (anti_symm prefix).
      * apply Hcommon. left. reflexivity.
      * apply Hmax. intros q [<- | []]. reflexivity.
    + intros reordered fuel Hperm Hfuel.
      destruct reordered as [|first' others'].
      { symmetry in Hperm. apply Permutation_nil in Hperm. discriminate. }
      destruct (commonRoot_nonempty first' others') as (root' & Hrun' & Hcommon' & Hmax').
      rewrite (Hrun' fuel Hfuel). f_equal.
      apply (anti_symm prefix).
      * apply Hmax. intros p Hp. apply Hcommon'.
        apply (Permutation_in _ Hperm), Hp.
      * apply Hmax'. intros p Hp. apply Hcommon.
        apply (Permutation_in _ (Permutation_sym Hperm)), Hp.
Qed.

(** C4. [doesPathStartWith(path, prefix)] is true exactly when every step
    of [prefix] strictly equals the step of [path] at the same index.  So
    the empty prefix is a prefix of every path, every path is a prefix of
    itself, a true result needs [path.length >= prefix.length], and a prefix
    longer than the path gives false. *)
Theorem doesPathStartWith_every_step (path pathPrefix : PathToProp) :
  (doesPathStartWith path pathPrefix = true <->
   forall (i : nat) (pathPart : step),
     pathPrefix !! i = Some pathPart ->
     strict_eq (Some pathPart) (path !! i) = true) /\
  doesPathStartWith path [] = true /\
  doesPathStartWith [] [] = true /\
  doesPathStartWith path path = true /\
  (doesPathStartWith path pathPrefix = true -> (length pathPrefix <= length path)%nat) /\
  ((length path < length pathPrefix)%nat -> doesPathStartWith path pathPrefix = false) /\
  doesPathStartWith [SStr "a"] [SStr "a"; SStr "b"] = false.
Proof.
  split; [| split; [| split; [| split; [| split; [| split]]]]].
  - rewrite doesPathStartWith_true. split; intros H i x Hi.
    + apply strict_eq_true. symmetry. apply H, Hi.
    + symmetry. apply strict_eq_true. apply H, Hi.
  - reflexivity.
  - reflexivity.
  - apply doesPathStartWith_refl.
  - apply doesPathStartWith_length.
  - intros Hlen. destruct (doesPathStartWith path pathPrefix) eqn:E; [| reflexivity].
    apply doesPathStartWith_length in E. lia.
  - reflexivity.
Qed.

(** C5. [arePathsEqual(a, b)] is true exactly when [a] and [b] have the
    same length and the steps at every index are strictly equal; a string
    step never equals a number step, so [arePathsEqual([1,'a'], ['1','a'])]
    is false; the relation is reflexive and symmetric. *)
Theorem arePathsEqual_strict_elementwise (a b : PathToProp) :
  (arePathsEqual a b = true <->
   length a = length b /\
   forall i : nat, (i < length a)%nat -> strict_eq (a !! i) (b !! i) = true) /\
  (forall (s : string) (n : Z),
      strict_eq (Some (SStr s)) (Some (SNum n)) = false /\
      strict_eq (Some (SNum n)) (Some (SStr s)) = false) /\
  arePathsEqual [SNum 1; SStr "a"] [SStr "1"; SStr "a"] = false /\
  arePathsEqual a a = true /\
  arePathsEqual a b = arePathsEqual b a.
Proof.
  split; [apply arePathsEqual_true |].
  split; [intros s n; split; reflexivity |].
  split; [reflexivity |].
  split; [apply arePathsEqual_eq; reflexivity |].
  destruct (arePathsEqual a b) eqn:E, (arePathsEqual b a) eqn:F; try reflexivity.
  - apply arePathsEqual_eq in E. subst b.
    rewrite (proj2 (arePathsEqual_eq a a) eq_refl) in F. discriminate.
  - apply arePathsEqual_eq in F. subst b.
    rewrite (proj2 (arePathsEqual_eq a a) eq_refl) in E. discriminate.
Qed.

(** C6. [encodePathToProp] is deterministic and injective: in any two
    states of the cache, the encodings of [p] and [q] are the same string
    exactly when [p] and [q] are step by step equal; the string step ["1"]
    and the number step [1] get different encodings. *)
Theorem encodePathToProp_injective
    (cache1 cache2 : gmap PathToProp PathToProp_Encoded) (p q : PathToProp) :
  cache_reachable cache1 -> cache_reachable cache2 ->
  (fst (encodePathToProp cache1 p) = fst (encodePathToProp cache2 q) <->
   arePathsEqual p q = true) /\
  fst (encodePathToProp cache1 [SStr "1"]) <> fst (encodePathToProp cache2 [SNum 1]).
Proof.
  intros H1 H2. rewrite !encodePathToProp_value by assumption.
  split.
  - rewrite arePathsEqual_eq. split.
    + apply JSON_stringify_inj.
    + intros ->. reflexivity.
  - discriminate.
Qed.

Lemma encodePathToProp_injective_witness :
  (fst (encodePathToProp ∅ [SStr "a"; SNum 0]) =
   fst (encodePathToProp (snd (encodePathToProp ∅ [SStr "a"; SNum 0])) [SStr "a"; SNum 0]) <->
   arePathsEqual [SStr "a"; SNum 0] [SStr "a"; SNum 0] = true) /\
  fst (encodePathToProp ∅ [SStr "1"]) <>
  fst (encodePathToProp (snd (encodePathToProp ∅ [SStr "a"; SNum 0])) [SNum 1]).
Proof.
  apply (encodePathToProp_injective ∅ (snd (encodePathToProp ∅ [SStr "a"; SNum 0]))).
  - exact cache_initial.
  - exact (cache_after_encode ∅ [SStr "a"; SNum 0] cache_initial).
Defined.

(** C7. On the empty path [getValueByPropPath] returns [rootVal] itself,
    whatever it is: [null], [undefined], a primitive, an array or an
    object.  The check for [null] and non-objects is made only when a step
    is left to consume. *)
Theorem getValueByPropPath_empty_path :
  (forall rootVal : value, getValueByPropPath [] rootVal = Normal rootVal) /\
  getValueByPropPath [] VNull = Normal VNull /\
  (forall (key : step) (rest : PathToProp),
      getValueByPropPath (key :: rest) VNull = Normal VUndefined).
Proof.
  split; [intros rootVal; reflexivity |].
  split; [reflexivity |].
  intros key rest. reflexivity.
Qed.


(** C9. [arePathsEqual(a, b)] is true exactly when each of [a] and [b]
    starts with the other. *)
Theorem arePathsEqual_iff_mutual_prefix (a b : PathToProp) :
  arePathsEqual a b = true <->
  doesPathStartWith a b = true /\ doesPathStartWith b a = true.
Proof.
  rewrite arePathsEqual_eq, !doesPathStartWith_prefix. split.
  - intros ->. split; reflexivity.
  - intros [Hba Hab]. apply (anti_symm prefix); assumption.
Qed.

(** C10. The prefix relation is transitive: when [p] starts with [a] and
    [a] starts with [b], [p] starts with [b]. *)
Theorem doesPathStartWith_trans (p a b : PathToProp) :
  doesPathStartWith p a = true ->
  doesPathStartWith a b = true ->
  doesPathStartWith p b = true.
Proof.
  rewrite !doesPathStartWith_prefix. intros Hpa Hab.
  transitivity a; assumption.
Qed.

Lemma doesPathStartWith_trans_witness :
  doesPathStartWith [SStr "a"; SNum 0; SStr "b"] [SStr "a"; SNum 0] = true /\
  doesPathStartWith [SStr "a"; SNum 0] [SStr "a"] = true /\
  doesPathStartWith [SStr "a"; SNum 0; SStr "b"] [SStr "a"] = true.
Proof.
  split; [reflexivity |]. split; [reflexivity |].
  apply (doesPathStartWith_trans _ [SStr "a"; SNum 0]); reflexivity.
Defined.

(** * Further properties of the path operations *)

(** ** Helper lemmas *)

(** Resolving a concatenated path: resolve the first part, then the second
    part from what the first gave. *)
Lemma getValueByPropPath_app (p q : PathToProp) :
  forall rootVal : value,
    getValueByPropPath (p ++ q) rootVal =
    getValueByPropPath p rootVal ≫= getValueByPropPath q.
Proof.
  induction p as [|key p IH]; intros rootVal; [reflexivity |].
  rewrite <- app_comm_cons.
  destruct rootVal as [| |b|n|s|elements|properties|f|];
    try (rewrite !getValueByPropPath_not_object
           by (first [left; reflexivity | right; discriminate]);
         symmetry; apply getValueByPropPath_undefined).
  - destruct key as [s|n].
    + rewrite !getValueByPropPath_array_string.
      symmetry. apply getValueByPropPath_undefined.
    + rewrite !getValueByPropPath_array_number. apply IH.
  - destruct key as [s|n].
    + rewrite !getValueByPropPath_object_string. apply IH.
    + rewrite !getValueByPropPath_object_number.
      symmetry. apply getValueByPropPath_undefined.
  - destruct key as [s|n].
    + rewrite !getValueByPropPath_prototype_string. apply IH.
    + rewrite !getValueByPropPath_prototype_number.
      symmetry. apply getValueByPropPath_undefined.
Qed.

(** A turn of the loop of [commonRootOfPathsToProps] either returns the
    accumulator or adds one step to it. *)
Lemma commonRoot_body_cases (pathsToProps : list PathToProp) (acc : PathToProp) :
  commonRoot_body pathsToProps acc = inr acc \/
  exists c : step, commonRoot_body pathsToProps acc = inl (acc ++ [c]).
Proof.
  unfold commonRoot_body.
  destruct (pathsToProps !! 0%nat ≫= _) as [c|]; [| left; reflexivity].
  destruct (forallb _ pathsToProps); [right; exists c | left]; reflexivity.
Qed.

(** The loop returns on the turn the accumulator has become the result:
    one turn for each step added, and one more. *)
Lemma commonRoot_while_turns (pathsToProps : list PathToProp) :
  forall (fuel : nat) (acc r : PathToProp),
    commonRoot_while fuel pathsToProps acc = Some r ->
    acc `prefix_of` r /\
    (length r - length acc < fuel)%nat /\
    forall fuel' : nat,
      (length r - length acc < fuel')%nat ->
      commonRoot_while fuel' pathsToProps acc = Some r.
Proof.
  induction fuel as [|fuel IH]; intros acc r Hrun; [discriminate |].
  cbn [commonRoot_while] in Hrun.
  destruct (commonRoot_body_cases pathsToProps acc) as [Hbody | [c Hbody]];
    rewrite Hbody in Hrun.
  - injection Hrun as <-.
    split; [reflexivity | split; [lia |]].
    intros fuel' Hfuel'. destruct fuel' as [|fuel']; [lia |].
    cbn [commonRoot_while]. rewrite Hbody. reflexivity.
  - destruct (IH _ _ Hrun) as (Hpre & Hlt & Hmore).
    rewrite length_app in Hlt, Hmore. cbn [length] in Hlt, Hmore.
    pose proof (prefix_length _ _ Hpre) as Hlen.
    rewrite length_app in Hlen. cbn [length] in Hlen.
    split; [| split].
    + transitivity (acc ++ [c]); [apply prefix_app_r; reflexivity | exact Hpre].
    + lia.
    + intros fuel' Hfuel'. destruct fuel' as [|fuel']; [lia |].
      cbn [commonRoot_while]. rewrite Hbody. apply Hmore. lia.
Qed.

(** Whatever the bound under which [commonRootOfPathsToProps] returns, what
    it returns for a collection that is not empty is the longest common
    prefix. *)
Lemma commonRoot_returns_longest (fuel : nat) (pathsToProps : list PathToProp)
    (root : PathToProp) :
  pathsToProps <> [] ->
  commonRootOfPathsToProps fuel pathsToProps = Some root ->
  (forall p : PathToProp, In p pathsToProps -> root `prefix_of` p) /\
  (forall c : PathToProp,
      (forall p : PathToProp, In p pathsToProps -> c `prefix_of` p) ->
      c `prefix_of` root).
Proof.
  intros Hne Hrun. destruct pathsToProps as [|first others]; [contradiction |].
  destruct (commonRoot_nonempty first others) as (r & Hr & Hcommon & Hmax).
  destruct (commonRoot_while_turns _ _ _ _ Hrun) as (_ & _ & Hmore).
  specialize (Hr (S (length first + length root)) ltac:(lia)).
  unfold commonRootOfPathsToProps in Hr.
  rewrite Hmore in Hr by (simpl; lia).
  injection Hr as ->. split; assumption.
Qed.

(** ** Properties *)

(** X1. [doesPathStartWith(path, prefix)] is true exactly when [path] is
    [prefix] followed by further steps: the steps of [prefix], then any
    number of steps (none, when the two are equal). *)
Theorem doesPathStartWith_iff_concat (path pathPrefix : PathToProp) :
  doesPathStartWith path pathPrefix = true <->
  exists rest : PathToProp, path = pathPrefix ++ rest.
Proof. rewrite doesPathStartWith_prefix. reflexivity. Qed.

(** X2. Two prefixes of one path are comparable: when [p] starts with [a]
    and with [b], then [a] starts with [b] or [b] starts with [a]. *)
Theorem doesPathStartWith_prefixes_comparable (p a b : PathToProp) :
  doesPathStartWith p a = true ->
  doesPathStartWith p b = true ->
  doesPathStartWith a b = true \/ doesPathStartWith b a = true.
Proof.
  rewrite !doesPathStartWith_prefix. intros Ha Hb.
  destruct (prefix_weak_total _ _ _ Ha Hb) as [H|H]; [right | left]; exact H.
Qed.

Lemma doesPathStartWith_prefixes_comparable_witness :
  doesPathStartWith [SStr "a"; SNum 0; SStr "b"] [SStr "a"; SNum 0] = true /\
  doesPathStartWith [SStr "a"; SNum 0; SStr "b"] [SStr "a"] = true /\
  (doesPathStartWith [SStr "a"; SNum 0] [SStr "a"] = true \/
   doesPathStartWith [SStr "a"] [SStr "a"; SNum 0] = true).
Proof.
  split; [reflexivity |]. split; [reflexivity |].
  apply (doesPathStartWith_prefixes_comparable [SStr "a"; SNum 0; SStr "b"]);
    reflexivity.
Defined.

(** X3. [arePathsEqual(a, b)] is the conjunction of two tests: the lengths
    are the same, and [a] starts with [b].  A prefix as long as the path is
    the path. *)
Theorem arePathsEqual_same_length_prefix (a b : PathToProp) :
  arePathsEqual a b = Nat.eqb (length a) (length b) && doesPathStartWith a b.
Proof.
  destruct (arePathsEqual a b) eqn:E.
  - apply arePathsEqual_eq in E. subst b.
    rewrite Nat.eqb_refl, doesPathStartWith_refl. reflexivity.
  - destruct (Nat.eqb (length a) (length b)) eqn:Hlen; [| reflexivity].
    destruct (doesPathStartWith a b) eqn:Hpre; [| reflexivity].
    apply Nat.eqb_eq in Hlen. apply doesPathStartWith_prefix in Hpre.
    rewrite (prefix_length_eq _ _ Hpre) in E by lia.
    rewrite (proj2 (arePathsEqual_eq a a) eq_refl) in E. discriminate.
Qed.

(** X4. Paths that [arePathsEqual] finds equal are interchangeable: the
    relation is transitive, [doesPathStartWith] gives the same answer for
    either path in either argument, and [getValueByPropPath] resolves both
    to the same value. *)
Theorem arePathsEqual_congruence (a b : PathToProp) :
  arePathsEqual a b = true ->
  (forall c : PathToProp, arePathsEqual b c = true -> arePathsEqual a c = true) /\
  (forall c : PathToProp,
      doesPathStartWith a c = doesPathStartWith b c /\
      doesPathStartWith c a = doesPathStartWith c b) /\
  (forall rootVal : value, getValueByPropPath a rootVal = getValueByPropPath b rootVal).
Proof.
  intros H. apply arePathsEqual_eq in H. subst b.
  split; [intros c Hc; exact Hc |].
  split; [intros c; split; reflexivity | intros rootVal; reflexivity].
Qed.

Lemma arePathsEqual_congruence_witness :
  arePathsEqual [SStr "a"; SNum 1] [SStr "a"; SNum 1] = true /\
  (forall c : PathToProp,
      doesPathStartWith [SStr "a"; SNum 1] c = doesPathStartWith [SStr "a"; SNum 1] c /\
      doesPathStartWith c [SStr "a"; SNum 1] = doesPathStartWith c [SStr "a"; SNum 1]).
Proof.
  split; [reflexivity |].
  apply (arePathsEqual_congruence [SStr "a"; SNum 1] [SStr "a"; SNum 1]).
  reflexivity.
Defined.

(** X5. Resolution composes along concatenation: resolving [p ++ q] from
    [rootVal] is resolving [q] from what [p] resolves to. *)
Theorem getValueByPropPath_concat (p q : PathToProp) (rootVal : value) :
  exists middle : value,
    getValueByPropPath p rootVal = Normal middle /\
    getValueByPropPath (p ++ q) rootVal = getValueByPropPath q middle.
Proof.
  destruct (getValueByPropPath_result p rootVal) as (middle & Hmid & _).
  exists middle. split; [exact Hmid |].
  rewrite getValueByPropPath_app, Hmid. reflexivity.
Qed.

(** X6. [undefined] is final: when a path resolves to [undefined], every
    path that starts with it resolves to [undefined] too. *)
Theorem getValueByPropPath_undefined_extends (path pathPrefix : PathToProp) (rootVal : value) :
  getValueByPropPath pathPrefix rootVal = Normal VUndefined ->
  doesPathStartWith path pathPrefix = true ->
  getValueByPropPath path rootVal = Normal VUndefined.
Proof.
  intros Hundef Hpre. apply doesPathStartWith_prefix in Hpre.
  destruct Hpre as [rest ->].
  rewrite getValueByPropPath_app, Hundef.
  apply getValueByPropPath_undefined.
Qed.

Lemma getValueByPropPath_undefined_extends_witness :
  getValueByPropPath [SStr "a"; SNum 5] example_rootVal = Normal VUndefined /\
  doesPathStartWith [SStr "a"; SNum 5; SStr "b"] [SStr "a"; SNum 5] = true /\
  getValueByPropPath [SStr "a"; SNum 5; SStr "b"] example_rootVal = Normal VUndefined.
Proof.
  split; [reflexivity |]. split; [reflexivity |].
  apply (getValueByPropPath_undefined_extends _ [SStr "a"; SNum 5]); reflexivity.
Defined.

(** X7. Every value inside [rootVal] has an address: for each element of
    an array and each value of a property, at any depth, there is a path
    that [getValueByPropPath] resolves to it. *)
Theorem getValueByPropPath_reaches_every_subvalue (rootVal w : value) :
  reaches rootVal w ->
  exists pathToProp : PathToProp, getValueByPropPath pathToProp rootVal = Normal w.
Proof.
  induction 1 as [v | elements i v w Hi Hreach IH | properties name v w Hname Hreach IH].
  - exists []. reflexivity.
  - destruct IH as [p Hp]. exists (SNum (Z.of_nat i) :: p).
    rewrite getValueByPropPath_array_number.
    replace (0 <=? Z.of_nat i)%Z with true by (symmetry; apply Z.leb_le; lia).
    rewrite Nat2Z.id, Hi. exact Hp.
  - destruct IH as [p Hp]. exists (SStr name :: p).
    rewrite (getValueByPropPath_object_own _ _ _ _ Hname). exact Hp.
Qed.

Lemma getValueByPropPath_reaches_every_subvalue_witness :
  exists pathToProp : PathToProp,
    getValueByPropPath pathToProp example_rootVal = Normal (VNum 2).
Proof.
  apply getValueByPropPath_reaches_every_subvalue.
  apply (reaches_property _ "a" (VArr [VNum 1; VObj {[ "b" := VNum 2 ]}]));
    [reflexivity |].
  apply (reaches_element _ 1%nat (VObj {[ "b" := VNum 2 ]})); [reflexivity |].
  apply (reaches_property _ "b" (VNum 2)); [reflexivity |].
  apply reaches_here.
Defined.

(** X8. A defined result means the last step fitted its container: when
    [path] followed by [key] resolves to a value other than [undefined],
    [path] resolves to an array that has that value at the index [key], a
    number within bounds; or to an object that has it under the name [key],
    a string; or to an object without a property of the name [key], a
    string that names the member of [Object.prototype] the value is. *)
Theorem getValueByPropPath_defined_parent
    (pathToProp : PathToProp) (key : step) (rootVal w : value) :
  getValueByPropPath (pathToProp ++ [key]) rootVal = Normal w ->
  w <> VUndefined ->
  exists parent : value,
    getValueByPropPath pathToProp rootVal = Normal parent /\
    ((exists (elements : list value) (n : Z),
         parent = VArr elements /\ key = SNum n /\
         (0 <= n < Z.of_nat (length elements))%Z /\
         elements !! Z.to_nat n = Some w) \/
     (exists (properties : gmap string value) (s : string),
         parent = VObj properties /\ key = SStr s /\ properties !! s = Some w) \/
     (exists (properties : gmap string value) (s : string),
         parent = VObj properties /\ key = SStr s /\ properties !! s = None /\
         ObjectPrototype_Get VObjectPrototype s = Some w) \/
     (exists s : string,
         parent = VObjectPrototype /\ key = SStr s /\
         ObjectPrototype_Get VNull s = Some w)).
Proof.
  intros Hrun Hdef.
  destruct (getValueByPropPath_result pathToProp rootVal) as (parent & Hparent & _).
  exists parent. split; [exact Hparent |].
  rewrite getValueByPropPath_app, Hparent in Hrun.
  change (getValueByPropPath [key] parent = Normal w) in Hrun.
  destruct parent as [| |b|m|t|elements|properties|f|];
    try (rewrite getValueByPropPath_not_object in Hrun
           by (first [left; reflexivity | right; discriminate]);
         injection Hrun as <-; contradiction).
  - left. destruct key as [s|n].
    + rewrite getValueByPropPath_array_string in Hrun.
      injection Hrun as <-. contradiction.
    + rewrite getValueByPropPath_array_number in Hrun.
      destruct (0 <=? n)%Z eqn:Hn;
        [| injection Hrun as <-; contradiction].
      apply Z.leb_le in Hn.
      destruct (elements !! Z.to_nat n) as [x|] eqn:Hx;
        [| injection Hrun as <-; contradiction].
      injection Hrun as ->.
      exists elements, n. split; [reflexivity |]. split; [reflexivity |].
      pose proof (lookup_lt_Some _ _ _ Hx) as Hlt. split; [lia | exact Hx].
  - right. destruct key as [s|n].
    + rewrite getValueByPropPath_object_string in Hrun.
      destruct (properties !! s) as [x|] eqn:Hx.
      * injection Hrun as ->. left.
        exists properties, s. split; [reflexivity |]. split; [reflexivity | exact Hx].
      * right. left.
        destruct (ObjectPrototype_Get VObjectPrototype s) as [x|] eqn:Hinh;
          [| injection Hrun as <-; contradiction].
        injection Hrun as ->.
        exists properties, s. repeat (split; [reflexivity |]).
        split; [exact Hx | exact Hinh].
    + rewrite getValueByPropPath_object_number in Hrun.
      injection Hrun as <-. contradiction.
  - right. right. right. destruct key as [s|n].
    + rewrite getValueByPropPath_prototype_string in Hrun.
      destruct (ObjectPrototype_Get VNull s) as [x|] eqn:Hinh;
        [| injection Hrun as <-; contradiction].
      injection Hrun as ->.
      exists s. split; [reflexivity |]. split; [reflexivity | exact Hinh].
    + rewrite getValueByPropPath_prototype_number in Hrun.
      injection Hrun as <-. contradiction.
Qed.

Lemma getValueByPropPath_defined_parent_witness :
  exists parent : value,
    getValueByPropPath [SStr "a"; SNum 1] example_rootVal = Normal parent /\
    ((exists (elements : list value) (n : Z),
         parent = VArr elements /\ SStr "b" = SNum n /\
         (0 <= n < Z.of_nat (length elements))%Z /\
         elements !! Z.to_nat n = Some (VNum 2)) \/
     (exists (properties : gmap string value) (s : string),
         parent = VObj properties /\ SStr "b" = SStr s /\
         properties !! s = Some (VNum 2)) \/
     (exists (properties : gmap string value) (s : string),
         parent = VObj properties /\ SStr "b" = SStr s /\ properties !! s = None /\
         ObjectPrototype_Get VObjectPrototype s = Some (VNum 2)) \/
     (exists s : string,
         parent = VObjectPrototype /\ SStr "b" = SStr s /\
         ObjectPrototype_Get VNull s = Some (VNum 2))).
Proof.
  apply (getValueByPropPath_defined_parent [SStr "a"; SNum 1] (SStr "b") example_rootVal).
  - reflexivity.
  - discriminate.
Defined.

(** X9. More paths, shorter root: when every path of a collection that is
    not empty is also in a second collection, the common root of the
    second is a prefix of the common root of the first. *)
Theorem commonRootOfPathsToProps_more_paths_shorter
    (fuel1 fuel2 : nat) (pathsToProps more : list PathToProp) (root1 root2 : PathToProp) :
  pathsToProps <> [] ->
  (forall p : PathToProp, In p pathsToProps -> In p more) ->
  commonRootOfPathsToProps fuel1 pathsToProps = Some root1 ->
  commonRootOfPathsToProps fuel2 more = Some root2 ->
  doesPathStartWith root1 root2 = true.
Proof.
  intros Hne Hincl Hrun1 Hrun2.
  assert (Hne' : more <> []).
  { destruct pathsToProps as [|p ps]; [contradiction |].
    intros ->. apply (Hincl p). left. reflexivity. }
  destruct (commonRoot_returns_longest _ _ _ Hne Hrun1) as [_ Hmax1].
  destruct (commonRoot_returns_longest _ _ _ Hne' Hrun2) as [Hcommon2 _].
  apply doesPathStartWith_prefix. apply Hmax1.
  intros p Hp. apply Hcommon2, Hincl, Hp.
Qed.

Lemma commonRootOfPathsToProps_more_paths_shorter_witness :
  doesPathStartWith [SStr "a"; SStr "b"] [SStr "a"] = true.
Proof.
  apply (commonRootOfPathsToProps_more_paths_shorter 3 3
           [[SStr "a"; SStr "b"; SStr "c"]; [SStr "a"; SStr "b"]]
           [[SStr "a"; SNum 0]; [SStr "a"; SStr "b"; SStr "c"]; [SStr "a"; SStr "b"]]).
  - discriminate.
  - intros p Hp. right. exact Hp.
  - reflexivity.
  - reflexivity.
Defined.

(** X10. The common root can be computed in parts: the common root of two
    collections taken together is the common root of their two common
    roots. *)
Theorem commonRootOfPathsToProps_of_roots
    (fuel1 fuel2 fuel : nat) (xs ys : list PathToProp) (rootX rootY root : PathToProp) :
  xs <> [] -> ys <> [] ->
  commonRootOfPathsToProps fuel1 xs = Some rootX ->
  commonRootOfPathsToProps fuel2 ys = Some rootY ->
  commonRootOfPathsToProps fuel (xs ++ ys) = Some root ->
  commonRootOfPathsToProps (S (length rootX)) [rootX; rootY] = Some root.
Proof.
  intros Hx Hy HrunX HrunY Hrun.
  assert (Hxy : xs ++ ys <> []).
  { destruct xs; [contradiction | discriminate]. }
  destruct (commonRoot_returns_longest _ _ _ Hx HrunX) as [HcommonX HmaxX].
  destruct (commonRoot_returns_longest _ _ _ Hy HrunY) as [HcommonY HmaxY].
  destruct (commonRoot_returns_longest _ _ _ Hxy Hrun) as [Hcommon Hmax].
  destruct (commonRoot_nonempty rootX [rootY]) as (r & Hr & Hcommon' & Hmax').
  rewrite (Hr (S (length rootX))) by lia. f_equal.
  apply (anti_symm prefix).
  - apply Hmax. intros p Hp. apply in_app_or in Hp. destruct Hp as [Hp|Hp].
    + transitivity rootX; [apply Hcommon'; left; reflexivity | apply HcommonX, Hp].
    + transitivity rootY;
        [apply Hcommon'; right; left; reflexivity | apply HcommonY, Hp].
  - apply Hmax'. intros q [<- | [<- | []]].
    + apply HmaxX. intros p Hp. apply Hcommon. apply in_or_app. left. exact Hp.
    + apply HmaxY. intros p Hp. apply Hcommon. apply in_or_app. right. exact Hp.
Qed.

Lemma commonRootOfPathsToProps_of_roots_witness :
  commonRootOfPathsToProps 4 [[SStr "a"; SStr "b"; SStr "c"]; [SStr "a"; SStr "b"; SNum 0]] =
    Some [SStr "a"; SStr "b"] /\
  commonRootOfPathsToProps 3 [[SStr "a"; SNum 1]] = Some [SStr "a"; SNum 1] /\
  commonRootOfPathsToProps 3 [[SStr "a"; SStr "b"]; [SStr "a"; SNum 1]] = Some [SStr "a"].
Proof.
  split; [reflexivity |]. split; [reflexivity |].
  apply (commonRootOfPathsToProps_of_roots 4 3 4
           [[SStr "a"; SStr "b"; SStr "c"]; [SStr "a"; SStr "b"; SNum 0]]
           [[SStr "a"; SNum 1]]).
  - discriminate.
  - discriminate.
  - reflexivity.
  - reflexivity.
  - reflexivity.
Defined.

(** X11. The loop stops where the paths first disagree, not at the end of
    the first path: when [commonRootOfPathsToProps] returns a root, it does
    so after exactly one turn more than the root has steps.  Every bound
    above the length of the root gives the root, every other bound is
    reached before the loop returns. *)
Theorem commonRootOfPathsToProps_turns
    (fuel : nat) (pathsToProps : list PathToProp) (root : PathToProp) :
  commonRootOfPathsToProps fuel pathsToProps = Some root ->
  forall fuel' : nat,
    commonRootOfPathsToProps fuel' pathsToProps =
    if (length root <? fuel')%nat then Some root else None.
Proof.
  unfold commonRootOfPathsToProps. intros Hrun fuel'.
  destruct (commonRoot_while_turns _ _ _ _ Hrun) as (_ & _ & Hmore).
  cbn [length] in Hmore. rewrite Nat.sub_0_r in Hmore.
  destruct (length root <? fuel')%nat eqn:Hlt.
  - apply Nat.ltb_lt in Hlt. apply Hmore, Hlt.
  - apply Nat.ltb_ge in Hlt.
    destruct (commonRoot_while fuel' pathsToProps []) as [r'|] eqn:Hrun'; [| reflexivity].
    exfalso.
    destruct (commonRoot_while_turns _ _ _ _ Hrun') as (_ & Hlt' & Hmore').
    cbn [length] in Hlt', Hmore'. rewrite Nat.sub_0_r in Hlt', Hmore'.
    pose proof (Hmore (S (length root + length r')) ltac:(lia)) as H1.
    pose proof (Hmore' (S (length root + length r')) ltac:(lia)) as H2.
    rewrite H1 in H2. injection H2 as ->. lia.
Qed.

Lemma commonRootOfPathsToProps_turns_witness :
  commonRootOfPathsToProps 1
    [[SStr "a"; SStr "b"; SStr "c"; SStr "d"]; [SStr "a"; SNum 0]] = None /\
  commonRootOfPathsToProps 2
    [[SStr "a"; SStr "b"; SStr "c"; SStr "d"]; [SStr "a"; SNum 0]] = Some [SStr "a"].
Proof.
  split.
  - exact (commonRootOfPathsToProps_turns 5
             [[SStr "a"; SStr "b"; SStr "c"; SStr "d"]; [SStr "a"; SNum 0]]
             [SStr "a"] eq_refl 1%nat).
  - exact (commonRootOfPathsToProps_turns 5
             [[SStr "a"; SStr "b"; SStr "c"; SStr "d"]; [SStr "a"; SNum 0]]
             [SStr "a"] eq_refl 2%nat).
Defined.

(** X12. A shared base cancels: with the same steps [base] put in front of
    both paths, [doesPathStartWith] and [arePathsEqual] answer as they do
    for the paths without it. *)
Theorem doesPathStartWith_cancel_base (base path pathPrefix : PathToProp) :
  doesPathStartWith (base ++ path) (base ++ pathPrefix) = doesPathStartWith path pathPrefix /\
  arePathsEqual (base ++ path) (base ++ pathPrefix) = arePathsEqual path pathPrefix.
Proof.
  split.
  - destruct (doesPathStartWith path pathPrefix) eqn:E.
    + apply doesPathStartWith_prefix. apply prefix_app.
      apply doesPathStartWith_prefix, E.
    + destruct (doesPathStartWith (base ++ path) (base ++ pathPrefix)) eqn:F;
        [| reflexivity].
      apply doesPathStartWith_prefix, prefix_app_inv, doesPathStartWith_prefix in F.
      rewrite F in E. discriminate.
  - destruct (arePathsEqual path pathPrefix) eqn:E.
    + apply arePathsEqual_eq in E. subst. apply arePathsEqual_eq. reflexivity.
    + destruct (arePathsEqual (base ++ path) (base ++ pathPrefix)) eqn:F;
        [| reflexivity].
      apply arePathsEqual_eq, app_inv_head in F. subst.
      rewrite (proj2 (arePathsEqual_eq pathPrefix pathPrefix) eq_refl) in E.
      discriminate.
Qed.

(** X13. A shared base comes out of the common root: when the paths of a
    collection that is not empty have the common root [root], the same
    paths with the steps [base] in front of each have the common root
    [base] followed by [root]. *)
Theorem commonRootOfPathsToProps_shared_base
    (fuel : nat) (base : PathToProp) (pathsToProps : list PathToProp) (root : PathToProp) :
  pathsToProps <> [] ->
  commonRootOfPathsToProps fuel pathsToProps = Some root ->
  commonRootOfPathsToProps (S (length base + length root))
    (map (fun p : PathToProp => base ++ p) pathsToProps) = Some (base ++ root).
Proof.
  intros Hne Hrun.
  destruct (commonRoot_returns_longest _ _ _ Hne Hrun) as [Hcommon Hmax].
  destruct pathsToProps as [|first others]; [contradiction |].
  cbn [map].
  destruct (commonRoot_nonempty (base ++ first)
              (map (fun p : PathToProp => base ++ p) others))
    as (r & Hr & Hcommon' & Hmax').
  assert (Heq : r = base ++ root).
  { apply (anti_symm prefix).
    - assert (Hbase : base `prefix_of` r).
      { apply Hmax'. intros q Hq.
        change (In q (map (fun p : PathToProp => base ++ p) (first :: others))) in Hq.
        apply in_map_iff in Hq. destruct Hq as (p & <- & _).
        apply prefix_app_r. reflexivity. }
      destruct Hbase as [k ->]. apply prefix_app. apply Hmax.
      intros p Hp. apply (prefix_app_inv base). apply Hcommon'.
      change (In (base ++ p) (map (fun p : PathToProp => base ++ p) (first :: others))).
      apply in_map. exact Hp.
    - apply Hmax'. intros q Hq.
      change (In q (map (fun p : PathToProp => base ++ p) (first :: others))) in Hq.
      apply in_map_iff in Hq. destruct Hq as (p & <- & Hp).
      apply prefix_app. apply Hcommon, Hp. }
  subst r.
  specialize (Hr (S (length (base ++ first))) ltac:(lia)).
  unfold commonRootOfPathsToProps in *.
  destruct (commonRoot_while_turns _ _ _ _ Hr) as (_ & _ & Hmore).
  apply Hmore. cbn [length]. rewrite length_app. lia.
Qed.

Lemma commonRootOfPathsToProps_shared_base_witness :
  commonRootOfPathsToProps 3
    (map (fun p : PathToProp => [SStr "obj"] ++ p) [[SStr "a"; SNum 0]; [SStr "a"; SNum 1]]) =
  Some ([SStr "obj"] ++ [SStr "a"]).
Proof.
  apply (commonRootOfPathsToProps_shared_base 3 [SStr "obj"]
           [[SStr "a"; SNum 0]; [SStr "a"; SNum 1]] [SStr "a"]).
  - discriminate.
  - reflexivity.
Defined.

(** X14. A path is a prefix of another exactly when it is the common root
    of the two: [doesPathStartWith(b, a)] is true if and only if
    [commonRootOfPathsToProps([a, b])] is [a]. *)
Theorem doesPathStartWith_iff_commonRoot (a b : PathToProp) :
  doesPathStartWith b a = true <->
  commonRootOfPathsToProps (S (length a)) [a; b] = Some a.
Proof.
  destruct (commonRoot_nonempty a [b]) as (r & Hr & Hcommon & Hmax).
  rewrite (Hr (S (length a))) by lia.
  rewrite doesPathStartWith_prefix. split.
  - intros Hab. f_equal. apply (anti_symm prefix).
    + apply Hcommon. left. reflexivity.
    + apply Hmax. intros q [<- | [<- | []]]; [reflexivity | exact Hab].
  - intros Heq. injection Heq as ->. apply Hcommon. right. left. reflexivity.
Qed.

(** X15. How [getValueByPropPath] walks.  With no step left it returns the
    current value.  With the step [key] and the steps [rest] left: a
    current value that is [null] or not an object gives [undefined]; on an
    array a string step gives [undefined] and a number step goes on, with
    [rest], from the element at that index, or from [undefined] when the
    index is out of range; on a plain object a number step gives
    [undefined] and a string step goes on from the object's own property
    of that name, else from the member of that name inherited from
    [Object.prototype], else from [undefined]; going on from [undefined]
    gives [undefined]. *)
Theorem getValueByPropPath_steps (key : step) (rest : PathToProp) :
  (forall cur : value, getValueByPropPath [] cur = Normal cur) /\
  (forall cur : value,
      is_null cur = true \/ typeof cur <> "object" ->
      getValueByPropPath (key :: rest) cur = Normal VUndefined) /\
  (forall elements : list value,
      match key with
      | SStr _ => getValueByPropPath (key :: rest) (VArr elements) = Normal VUndefined
      | SNum n =>
          getValueByPropPath (key :: rest) (VArr elements) =
          getValueByPropPath rest
            (if (0 <=? n)%Z then default VUndefined (elements !! Z.to_nat n)
             else VUndefined)
      end) /\
  (forall properties : gmap string value,
      match key with
      | SNum _ => getValueByPropPath (key :: rest) (VObj properties) = Normal VUndefined
      | SStr s =>
          getValueByPropPath (key :: rest) (VObj properties) =
          getValueByPropPath rest
            (match properties !! s with
             | Some v => v
             | None => default VUndefined (ObjectPrototype_Get VObjectPrototype s)
             end)
      end) /\
  getValueByPropPath rest VUndefined = Normal VUndefined.
Proof.
  split; [intros cur; reflexivity |].
  split; [intros cur; apply getValueByPropPath_not_object |].
  split; [| split].
  - intros elements. destruct key as [s|n].
    + apply getValueByPropPath_array_string.
    + apply getValueByPropPath_array_number.
  - intros properties. destruct key as [s|n].
    + apply getValueByPropPath_object_string.
    + apply getValueByPropPath_object_number.
  - apply getValueByPropPath_undefined.
Qed.
